(** * discord-voice-summary: the capture-and-assembly pipeline of [VoiceBot]

    A shallow embedding of [src/bot.ts] (class [VoiceBot]) and of the
    [AudioQueue] interface of [src/types.ts].

    - A [Buffer] is a list of bytes, of any length; the integer fields
      written into it have the width and the range check of Node's writers.
    - The [Map<string, AudioQueue>] held in [this.audioQueues] is the list of
      its entries in insertion order, as ECMAScript defines [Map]; an entry
      holds a reference into a heap of [AudioQueue] objects, because
      [handleAudioStream] keeps the object it fetched and pushes into it.
    - Calls into discord.js, @discordjs/voice, fs, opusscript and the OpenAI
      client are recorded in a trace of events; what each call answers
      (a value or an exception) is read from an environment that sees the
      trace so far.
    - [async] methods are executed to completion one after the other.
    - [console.log], [console.warn] and [console.error] are diagnostics and
      are not part of the modelled world. *)

From Stdlib Require Import ZArith Lia.
From Stdlib.Strings Require Import Byte Ascii.
From stdpp Require Import base tactics option list sets strings.

Set Warnings "-clear-no-such-hyp".

Local Open Scope Z_scope.

(** ** Exceptions and completions *)

Inductive Exn : Type :=
  | RangeError (code : string)
  | Failure (what : string).

Inductive Completion (A : Type) : Type :=
  | Normal (a : A)
  | Throw (e : Exn).
Arguments Normal {A} a.
Arguments Throw {A} e.

Module Pure.
Definition bind {A B} (c : Completion A) (k : A -> Completion B) : Completion B :=
  match c with
  | Normal a => k a
  | Throw e => Throw e
  end.
End Pure.

Declare Scope pure_scope.
Delimit Scope pure_scope with pure.
Notation "x <- c ;; k" := (Pure.bind c (fun x => k))
  (at level 100, c at next level, right associativity) : pure_scope.

(** ** Node's [Buffer] *)

Abbreviation Buffer := (list byte).

(** [buf[i] = value] on a [Uint8Array] stores [value] modulo 256. *)
Definition byte_of_Z (value : Z) : byte :=
  default x00 (Byte.of_N (Z.to_N (value mod 256))).

Definition Z_of_byte (b : byte) : Z := Z.of_N (Byte.to_N b).

(** [Buffer.alloc(size)]: zero-filled. *)
Definition Buffer_alloc (size : nat) : Buffer := replicate size x00.

(** [buf.write(string, offset)]: the bytes of the string, cut to the room
    left in the buffer; an offset beyond the end is refused. *)
Definition Buffer_write (buf : Buffer) (s : string) (offset : nat) : Completion Buffer :=
  if decide (offset <= length buf)%nat
  then Normal (list_inserts offset (String.list_byte_of_string s) buf)
  else Throw (RangeError "ERR_OUT_OF_RANGE").

(** [buf.writeUInt32LE(value, offset)]: [checkInt] refuses a value outside
    0 .. 2^32-1 and an offset that leaves fewer than four bytes; then the
    bytes are stored low byte first, shifting the value right by 8. *)
Definition writeUInt32LE (buf : Buffer) (value : Z) (offset : nat) : Completion Buffer :=
  if decide (0 <= value <= 4294967295) then
    if decide (offset + 4 <= length buf)%nat then
      let b0 := <[offset := byte_of_Z value]> buf in
      let value1 := Z.shiftr value 8 in
      let b1 := <[(offset + 1)%nat := byte_of_Z value1]> b0 in
      let value2 := Z.shiftr value1 8 in
      let b2 := <[(offset + 2)%nat := byte_of_Z value2]> b1 in
      let value3 := Z.shiftr value2 8 in
      Normal (<[(offset + 3)%nat := byte_of_Z value3]> b2)
    else Throw (RangeError "ERR_BUFFER_OUT_OF_BOUNDS")
  else Throw (RangeError "ERR_OUT_OF_RANGE").

(** [buf.writeUInt16LE(value, offset)]. *)
Definition writeUInt16LE (buf : Buffer) (value : Z) (offset : nat) : Completion Buffer :=
  if decide (0 <= value <= 65535) then
    if decide (offset + 2 <= length buf)%nat then
      let b0 := <[offset := byte_of_Z value]> buf in
      Normal (<[(offset + 1)%nat := byte_of_Z (Z.shiftr value 8)]> b0)
    else Throw (RangeError "ERR_BUFFER_OUT_OF_BOUNDS")
  else Throw (RangeError "ERR_OUT_OF_RANGE").

(** [buf.readUInt32LE(offset)] and [buf.readUInt16LE(offset)]: [None] stands
    for the bounds error. *)
Definition readUInt32LE (buf : Buffer) (offset : nat) : option Z :=
  match buf !! offset, buf !! (offset + 1)%nat, buf !! (offset + 2)%nat, buf !! (offset + 3)%nat with
  | Some first, Some b1, Some b2, Some last =>
      Some (Z_of_byte first + Z_of_byte b1 * 2 ^ 8 + Z_of_byte b2 * 2 ^ 16 + Z_of_byte last * 2 ^ 24)
  | _, _, _, _ => None
  end.

Definition readUInt16LE (buf : Buffer) (offset : nat) : option Z :=
  match buf !! offset, buf !! (offset + 1)%nat with
  | Some first, Some last => Some (Z_of_byte first + Z_of_byte last * 2 ^ 8)
  | _, _ => None
  end.

(** [Buffer.concat(list)]. *)
Definition Buffer_concat (list : list Buffer) : Buffer := concat list.

(** ** The container serializer: [createWavBuffer] *)

Definition numChannels : Z := 2.
Definition sampleRate : Z := 48000.
Definition bitsPerSample : Z := 16.
Definition blockAlign : Z := numChannels * (bitsPerSample / 8).
Definition byteRate : Z := sampleRate * blockAlign.

Definition createWavBuffer (audioBuffer : Buffer) : Completion Buffer :=
  (let wavHeader := Buffer_alloc 44 in
   wavHeader <- Buffer_write wavHeader "RIFF" 0 ;;
   wavHeader <- writeUInt32LE wavHeader (36 + Z.of_nat (length audioBuffer)) 4 ;;
   wavHeader <- Buffer_write wavHeader "WAVE" 8 ;;
   wavHeader <- Buffer_write wavHeader "fmt " 12 ;;
   wavHeader <- writeUInt32LE wavHeader 16 16 ;;
   wavHeader <- writeUInt16LE wavHeader 1 20 ;;
   wavHeader <- writeUInt16LE wavHeader numChannels 22 ;;
   wavHeader <- writeUInt32LE wavHeader sampleRate 24 ;;
   wavHeader <- writeUInt32LE wavHeader byteRate 28 ;;
   wavHeader <- writeUInt16LE wavHeader blockAlign 32 ;;
   wavHeader <- writeUInt16LE wavHeader bitsPerSample 34 ;;
   wavHeader <- Buffer_write wavHeader "data" 36 ;;
   wavHeader <- writeUInt32LE wavHeader (Z.of_nat (length audioBuffer)) 40 ;;
   Normal (Buffer_concat [wavHeader; audioBuffer]))%pure.

(** ** The modelled world *)

(** Handle of a [VoiceConnection] and identity of an [OpusScript] instance. *)
Definition Connection : Type := nat.
Definition Decoder : Type := nat.

(** [interface AudioQueue] of types.ts. *)
Record AudioQueue : Type := mkAudioQueue {
  connection : Connection;
  audioChunks : list Buffer;
}.

(** What the handlers read of a [VoiceBasedChannel]: [id] and [guild.id]. *)
Record VoiceBasedChannel : Type := mkVoiceBasedChannel {
  channel_id : string;
  channel_guild_id : string;
}.

(** What the handlers read of a [Message]: [member?.voice.channel],
    [guild?.id], and whether [channel] exists and has a [send] method.
    [handleMessage], which picks the handler from the text of the message,
    is represented by the choice of a [Request] below. *)
Record Message : Type := mkMessage {
  message_id : nat;
  member_voice_channel : option VoiceBasedChannel;
  message_guild_id : option string;
  channel_has_send : bool;
}.

(** What an [AudioReceiveStream] yields under [for await]: chunks that are
    [Buffer]s or not, and then the end of the stream or an error. *)
Inductive StreamItem : Type :=
  | IsBuffer (chunk : Buffer)
  | NotBuffer.

Record AudioReceiveStream : Type := mkAudioReceiveStream {
  stream_items : list StreamItem;
  stream_error : option Exn;
}.

(** Calls that leave the bot. *)
Inductive Event : Type :=
  | EvReply (to : nat) (text : string)
  | EvChannelSend (text : string)
  | EvJoinVoiceChannel (channelId guildId : string)
  | EvSpeakingOn (c : Connection) (guildId : string)
  | EvDestroy (c : Connection)
  | EvWriteFile (filename : string) (data : Buffer)
  | EvStat (filename : string)
  | EvTranscription (filename : string)
  | EvSetTimeout (ms : Z)
  | EvChatCompletion (text : string)
  | EvUnlink (filename : string)
  | EvNewOpusScript (rate channels : Z)
  | EvNextChunk (item : StreamItem)
  | EvDecode (d : Decoder) (chunk : Buffer)
  | EvDecoderDelete (d : Decoder).

(** What the collaborators answer, given the calls made so far. *)
Record Env : Type := mkEnv {
  reply_outcome : list Event -> string -> Completion unit;
  send_outcome : list Event -> string -> Completion unit;
  joinVoiceChannel_outcome : list Event -> string -> string -> Completion Connection;
  destroy_outcome : list Event -> Connection -> Completion unit;
  writeFile_outcome : list Event -> string -> Buffer -> Completion unit;
  stat_outcome : list Event -> string -> Completion Z;
  transcription_outcome : list Event -> string -> Completion string;
  chat_completion_outcome : list Event -> string -> Completion (option string);
  unlink_outcome : list Event -> string -> Completion unit;
  new_OpusScript_outcome : list Event -> Completion unit;
  decode_outcome : list Event -> Decoder -> Buffer -> Completion (option Buffer);
  decoder_delete_outcome : list Event -> Decoder -> Completion unit;
}.

(** [heap]: the [AudioQueue] objects ever created, a reference is an index.
    [audioQueues]: the entries of [this.audioQueues], in insertion order.
    [decoders]: one flag per [OpusScript] instance, [true] until deleted. *)
Record World : Type := mkWorld {
  heap : list AudioQueue;
  audioQueues : list (string * nat);
  decoders : list bool;
  trace : list Event;
}.

(** The world the constructor leaves: [this.audioQueues = new Map()]. *)
Definition initial : World :=
  {| heap := []; audioQueues := []; decoders := []; trace := [] |}.

Definition set_heap (f : list AudioQueue -> list AudioQueue) (w : World) : World :=
  {| heap := f (heap w); audioQueues := audioQueues w; decoders := decoders w; trace := trace w |}.
Definition set_audioQueues (f : list (string * nat) -> list (string * nat)) (w : World) : World :=
  {| heap := heap w; audioQueues := f (audioQueues w); decoders := decoders w; trace := trace w |}.
Definition set_decoders (f : list bool -> list bool) (w : World) : World :=
  {| heap := heap w; audioQueues := audioQueues w; decoders := f (decoders w); trace := trace w |}.
Definition set_trace (f : list Event -> list Event) (w : World) : World :=
  {| heap := heap w; audioQueues := audioQueues w; decoders := decoders w; trace := f (trace w) |}.

(** ** [Map.prototype.get], [set] and [delete] on the entry list *)

Fixpoint Map_get {V} (entries : list (string * V)) (key : string) : option V :=
  match entries with
  | [] => None
  | (k, v) :: rest => if decide (k = key) then Some v else Map_get rest key
  end.

Fixpoint Map_set {V} (entries : list (string * V)) (key : string) (value : V) : list (string * V) :=
  match entries with
  | [] => [(key, value)]
  | (k, v) :: rest =>
      if decide (k = key) then (k, value) :: rest else (k, v) :: Map_set rest key value
  end.

Fixpoint Map_delete {V} (entries : list (string * V)) (key : string) : list (string * V) :=
  match entries with
  | [] => []
  | (k, v) :: rest =>
      if decide (k = key) then rest else (k, v) :: Map_delete rest key
  end.

(** ** Handlers: state, trace and exceptions *)

Definition M (A : Type) : Type := World -> Completion A * World.

Module M.
Definition ret {A} (a : A) : M A := fun w => (Normal a, w).
Definition throw {A} (e : Exn) : M A := fun w => (Throw e, w).
Definition bind {A B} (m : M A) (k : A -> M B) : M B :=
  fun w => match m w with
           | (Normal a, w') => k a w'
           | (Throw e, w') => (Throw e, w')
           end.
(** [try { body } catch (error) { handler }] *)
Definition try_catch {A} (body : M A) (handler : Exn -> M A) : M A :=
  fun w => match body w with
           | (Normal a, w') => (Normal a, w')
           | (Throw e, w') => handler e w'
           end.
(** [try { body } finally { cleanup }] *)
Definition try_finally {A} (body : M A) (cleanup : M unit) : M A :=
  fun w => match body w with
           | (c, w') =>
               match cleanup w' with
               | (Normal _, w'') => (c, w'')
               | (Throw e, w'') => (Throw e, w'')
               end
           end.
Definition lift {A} (c : Completion A) : M A := fun w => (c, w).
Definition get : M World := fun w => (Normal w, w).
Definition modify (f : World -> World) : M unit := fun w => (Normal tt, f w).
(** A call to a collaborator: answered from the trace so far, then logged. *)
Definition call {A} (ev : Event) (outcome : list Event -> Completion A) : M A :=
  fun w => (outcome (trace w), set_trace (fun t => t ++ [ev]) w).
Fixpoint for_each {A} (l : list A) (body : A -> M unit) : M unit :=
  match l with
  | [] => ret tt
  | x :: l' => bind (body x) (fun _ => for_each l' body)
  end.
End M.

Declare Scope m_scope.
Delimit Scope m_scope with M.
Bind Scope m_scope with M.
Notation "x <- c ;; k" := (M.bind c (fun x => k))
  (at level 100, c at next level, right associativity) : m_scope.
Notation "c ;; k" := (M.bind c (fun _ => k))
  (at level 100, right associativity) : m_scope.

(** ** JavaScript strings, as far as the handlers use them *)

(** [text.split(sep)] for a one-character separator. *)
Fixpoint String_split (sep : ascii) (text : string) : list string :=
  match text with
  | EmptyString => [EmptyString]
  | String c rest =>
      if decide (c = sep) then EmptyString :: String_split sep rest
      else match String_split sep rest with
           | piece :: pieces => String c piece :: pieces
           | [] => [String c EmptyString]
           end
  end.

(** A string is truthy when it is not empty. *)
Definition truthy (text : string) : bool := bool_decide (text <> EmptyString).

(** The UTF-8 bytes of U+1F4DD, and a line feed. *)
Definition memo : string :=
  String "240" (String "159" (String "147" (String "157" EmptyString))).
Definition LF : string := String "010" EmptyString.

(** ** The session buffer: what the handlers do with [queue.audioChunks] *)

(** [audioChunks.push(audioData)] *)
Definition push (audioChunks : list Buffer) (audioData : Buffer) : list Buffer :=
  audioChunks ++ [audioData].

(** [audioChunks.reduce((acc, buf) => acc + buf.length, 0)] *)
Definition totalSize (audioChunks : list Buffer) : Z :=
  foldl (fun acc buf => acc + Z.of_nat (length buf)) 0 audioChunks.

(** [Buffer.concat(queue.audioChunks)] *)
Definition drain (audioChunks : list Buffer) : Buffer := Buffer_concat audioChunks.

(** [Buffer.from(decoded)]: a copy. *)
Definition Buffer_from (b : Buffer) : Buffer := b.

(** ** class VoiceBot *)

Section VoiceBot.
Variable env : Env.

Local Open Scope m_scope.

(** *** Primitive steps *)

Definition reply (message : Message) (text : string) : M unit :=
  M.call (EvReply (message_id message) text) (fun t => reply_outcome env t text).

Definition channel_send (text : string) : M unit :=
  M.call (EvChannelSend text) (fun t => send_outcome env t text).

Definition joinVoiceChannel (channelId guildId : string) : M Connection :=
  M.call (EvJoinVoiceChannel channelId guildId)
         (fun t => joinVoiceChannel_outcome env t channelId guildId).

(** [connection.receiver.speaking.on('start', ...)]: registering a listener
    does not fail. *)
Definition speaking_on (c : Connection) (guildId : string) : M unit :=
  M.call (EvSpeakingOn c guildId) (fun _ => Normal tt).

Definition destroy (c : Connection) : M unit :=
  M.call (EvDestroy c) (fun t => destroy_outcome env t c).

Definition writeFile (filename : string) (data : Buffer) : M unit :=
  M.call (EvWriteFile filename data) (fun t => writeFile_outcome env t filename data).

Definition stat (filename : string) : M Z :=
  M.call (EvStat filename) (fun t => stat_outcome env t filename).

Definition transcriptions_create (filename : string) : M string :=
  M.call (EvTranscription filename) (fun t => transcription_outcome env t filename).

(** [new Promise(resolve => setTimeout(resolve, ms))] *)
Definition sleep (ms : Z) : M unit :=
  M.call (EvSetTimeout ms) (fun _ => Normal tt).

Definition chat_completions_create (text : string) : M (option string) :=
  M.call (EvChatCompletion text) (fun t => chat_completion_outcome env t text).

(** [fs.unlink(filename).catch(console.error)] *)
Definition unlink_caught (filename : string) : M unit :=
  M.try_catch
    (M.call (EvUnlink filename) (fun t => unlink_outcome env t filename))
    (fun _ => M.ret tt).

(** [new OpusScript(rate, channels)]: the instance is live once built. *)
Definition new_OpusScript (rate channels : Z) : M Decoder :=
  M.call (EvNewOpusScript rate channels) (fun t => new_OpusScript_outcome env t) ;;
  w <- M.get ;;
  M.modify (set_decoders (fun ds => ds ++ [true])) ;;
  M.ret (length (decoders w)).

Definition decoder_decode (d : Decoder) (chunk : Buffer) : M (option Buffer) :=
  M.call (EvDecode d chunk) (fun t => decode_outcome env t d chunk).

(** [decoder.delete()] *)
Definition decoder_delete (d : Decoder) : M unit :=
  M.call (EvDecoderDelete d) (fun t => decoder_delete_outcome env t d) ;;
  M.modify (set_decoders (fun ds => <[d := false]> ds)).

(** [this.audioQueues.get(guildId)] *)
Definition audioQueues_get (guildId : string) : M (option nat) :=
  w <- M.get ;; M.ret (Map_get (audioQueues w) guildId).

(** [this.audioQueues.set(guildId, { connection, audioChunks: [] })]: the
    object literal is a new object. *)
Definition audioQueues_set_new (guildId : string) (queue : AudioQueue) : M unit :=
  w <- M.get ;;
  M.modify (set_heap (fun h => h ++ [queue])) ;;
  M.modify (set_audioQueues (fun entries => Map_set entries guildId (length (heap w)))).

(** [this.audioQueues.delete(guildId)] *)
Definition audioQueues_delete (guildId : string) : M unit :=
  M.modify (set_audioQueues (fun entries => Map_delete entries guildId)).

(** Reading the object a reference points to. Objects are never freed, so
    a reference the handlers hold is always in range. *)
Definition deref (queue : nat) : M AudioQueue :=
  w <- M.get ;; M.ret (default (mkAudioQueue 0%nat []) (heap w !! queue)).

(** [queue.audioChunks.push(audioData)] *)
Definition audioChunks_push (queue : nat) (audioData : Buffer) : M unit :=
  M.modify (set_heap (alter (fun q => mkAudioQueue (connection q) (push (audioChunks q) audioData)) queue)).

(** [for await (const chunk of audioStream) body]: the items in turn, then
    the stream's error if it ends with one. *)
Definition for_await_items (items : list StreamItem) (body : StreamItem -> M unit) : M unit :=
  M.for_each items
             (fun item => M.call (EvNextChunk item) (fun _ => Normal tt) ;; body item).

Definition for_await (audioStream : AudioReceiveStream) (body : StreamItem -> M unit) : M unit :=
  for_await_items (stream_items audioStream) body ;;
  match stream_error audioStream with
  | None => M.ret tt
  | Some e => M.throw e
  end.

(** *** handleJoinCommand *)

Definition handleJoinCommand (message : Message) : M unit :=
  match member_voice_channel message with
  | None => reply message "You need to be in a voice channel first!"
  | Some voiceChannel =>
      M.try_catch
        (connection <- joinVoiceChannel (channel_id voiceChannel) (channel_guild_id voiceChannel) ;;
         audioQueues_set_new (channel_guild_id voiceChannel) (mkAudioQueue connection []) ;;
         speaking_on connection (channel_guild_id voiceChannel) ;;
         reply message "Joined voice channel and started recording.")
        (fun error => reply message "Failed to join voice channel.")
  end.

(** *** handleAudioStream *)

(** The body of the [for await] loop. *)
Definition handleChunk (queue : nat) (decoder : Decoder) (chunk : StreamItem) : M unit :=
  match chunk with
  | IsBuffer chunk =>
      M.try_catch
        (decoded <- decoder_decode decoder chunk ;;
         match decoded with
         | Some decoded =>
             if decide (0 < length decoded)%nat
             then audioChunks_push queue (Buffer_from decoded)
             else M.ret tt
         | None => M.ret tt
         end)
        (fun e => M.ret tt)
  | NotBuffer => M.ret tt
  end.

Definition handleAudioStream (audioStream : AudioReceiveStream) (guildId : string) : M unit :=
  queue <- audioQueues_get guildId ;;
  match queue with
  | None => M.ret tt
  | Some queue =>
      M.try_catch
        (decoder <- new_OpusScript 48000 2 ;;
         for_await audioStream (handleChunk queue decoder) ;;
         decoder_delete decoder)
        (fun error => M.ret tt)
  end.

(** *** transcribeAudio *)

Definition maxRetries : Z := 3.

(** [for (let i = 0; i < maxRetries; i++) { ... }] from iteration [i] on,
    with [todo] iterations left. *)
Fixpoint transcribeAudio_loop (todo : nat) (i : Z) (filename : string) : M string :=
  match todo with
  | O => M.ret "Failed to transcribe audio after multiple attempts"
  | S todo' =>
      returned <-
        M.try_catch
          (text <- transcriptions_create filename ;; M.ret (Some text))
          (fun error =>
             (if decide (i < maxRetries - 1)%Z
              then sleep (2 ^ i * 1000)
              else M.ret tt) ;;
             M.ret None) ;;
      match returned with
      | Some text => M.ret text
      | None => transcribeAudio_loop todo' (i + 1)%Z filename
      end
  end.

Definition transcribeAudio (filename : string) : M string :=
  M.try_catch
    (size <- stat filename ;;
     if decide (size = 0)%Z then M.ret "No audio content recorded"
     else transcribeAudio_loop (Z.to_nat maxRetries) 0 filename)
    (fun error => M.ret "Error processing audio file").

(** *** summarizeText *)

Definition summarizeText (text : string) : M string :=
  if decide (length (String_split " " text) < 30)%nat
  then M.ret "Text too short to summarize meaningfully"
  else
    M.try_catch
      (content <- chat_completions_create text ;;
       match content with
       | Some content => if truthy content then M.ret content
                         else M.ret "Failed to generate summary"
       | None => M.ret "Failed to generate summary"
       end)
      (fun error => M.ret "Failed to generate summary").

(** *** handleLeaveCommand *)

Definition handleLeaveCommand (message : Message) : M unit :=
  match message_guild_id message with
  | None => M.ret tt
  | Some guildId =>
      if negb (truthy guildId) then M.ret tt
      else
        queue <- audioQueues_get guildId ;;
        match queue with
        | None => reply message "Not currently in a voice channel."
        | Some queue =>
            M.try_catch
              (q <- deref queue ;;
               destroy (connection q) ;;
               q <- deref queue ;;
               (if decide (0 < length (audioChunks q))%nat then
                  let filename := "recording_" +:+ guildId +:+ ".wav" in
                  wavBuffer <- M.lift (createWavBuffer (drain (audioChunks q))) ;;
                  writeFile filename wavBuffer ;;
                  M.try_finally
                    (transcription <- transcribeAudio filename ;;
                     if truthy transcription
                        && bool_decide (transcription <> "Failed to transcribe audio")
                     then
                       summary <- summarizeText transcription ;;
                       if channel_has_send message
                       then channel_send (memo +:+ " **Summary of the conversation:**"
                                               +:+ LF +:+ summary)
                       else M.ret tt
                     else
                       if channel_has_send message
                       then channel_send "No clear speech detected in the recording."
                       else M.ret tt)
                    (unlink_caught filename)
                else reply message "No audio was recorded.") ;;
               audioQueues_delete guildId ;;
               reply message "Left voice channel.")
              (fun error => reply message "Failed to process recording.")
        end
  end.

(** *** What reaches the bot

    [handleMessage] dispatches [join] and [leave]; the listener installed
    by [handleJoinCommand] starts [handleAudioStream] for a speaker. *)
Inductive Request : Type :=
  | Join (message : Message)
  | Leave (message : Message)
  | Speaking (audioStream : AudioReceiveStream) (guildId : string).

Definition handle (r : Request) : M unit :=
  match r with
  | Join message => handleJoinCommand message
  | Leave message => handleLeaveCommand message
  | Speaking audioStream guildId => handleAudioStream audioStream guildId
  end.

(** The world after a handler, whatever its completion. *)
Definition after (r : Request) (w : World) : World := snd (handle r w).

Definition run (rs : list Request) (w : World) : World := foldl (fun w r => after r w) w rs.

End VoiceBot.

(** ** The container layout, as the format's table gives it *)

(** [width] bytes of [value], least significant first. *)
Fixpoint le_bytes (width : nat) (value : Z) : list byte :=
  match width with
  | O => []
  | S width' => byte_of_Z value :: le_bytes width' (value / 256)
  end.

(** The 44-byte header for a payload of [dataLength] bytes: offset, size,
    field and value of each row of the table. *)
Definition wav_header_layout (dataLength : Z) : Buffer :=
  String.list_byte_of_string "RIFF"          (*  0  4  chunk id        *)
  ++ le_bytes 4 (36 + dataLength)            (*  4  4  chunk size      *)
  ++ String.list_byte_of_string "WAVE"       (*  8  4  format          *)
  ++ String.list_byte_of_string "fmt "       (* 12  4  subchunk1 id    *)
  ++ le_bytes 4 16                           (* 16  4  subchunk1 size  *)
  ++ le_bytes 2 1                            (* 20  2  audio format    *)
  ++ le_bytes 2 2                            (* 22  2  channels        *)
  ++ le_bytes 4 48000                        (* 24  4  sample rate     *)
  ++ le_bytes 4 (48000 * (2 * (16 / 8)))     (* 28  4  byte rate       *)
  ++ le_bytes 2 (2 * (16 / 8))               (* 32  2  block align     *)
  ++ le_bytes 2 16                           (* 34  2  bits per sample *)
  ++ String.list_byte_of_string "data"       (* 36  4  subchunk2 id    *)
  ++ le_bytes 4 dataLength.                  (* 40  4  subchunk2 size  *)

(** What a reader of the container recovers from the header. *)
Record WavInfo : Type := mkWavInfo {
  wav_channels : Z;
  wav_sampleRate : Z;
  wav_bitsPerSample : Z;
  wav_dataLength : Z;
}.

Definition parseWavHeader (container : Buffer) : option WavInfo :=
  match readUInt16LE container 22, readUInt32LE container 24,
        readUInt16LE container 34, readUInt32LE container 40 with
  | Some channels, Some rate, Some bits, Some dataLength =>
      Some (mkWavInfo channels rate bits dataLength)
  | _, _, _, _ => None
  end.

(** The serializer's contract for one payload: a 44-byte header laid out as
    in the table, then the payload. *)
Definition serializes (payload : Buffer) : Prop :=
  exists header : Buffer,
    createWavBuffer payload = Normal (header ++ payload)
    /\ length header = 44%nat
    /\ header = wav_header_layout (Z.of_nat (length payload))
    /\ readUInt32LE header 4 = Some (36 + Z.of_nat (length payload))
    /\ readUInt32LE header 40 = Some (Z.of_nat (length payload))
    /\ readUInt16LE header 20 = Some 1
    /\ readUInt16LE header 22 = Some 2
    /\ readUInt32LE header 24 = Some 48000
    /\ readUInt16LE header 34 = Some 16
    /\ readUInt16LE header 32 = Some 4
    /\ readUInt32LE header 28 = Some 192000.

(** The round trip for one payload. *)
Definition round_trips (payload : Buffer) : Prop :=
  exists container : Buffer,
    createWavBuffer payload = Normal container
    /\ parseWavHeader container
       = Some (mkWavInfo 2 48000 16 (Z.of_nat (length payload))).

(** A payload of 4294967260 bytes, 36 short of 4 GiB. *)
Definition payload_4GiB : Buffer := replicate (Z.to_nat 4294967260) x00.

(** ** Registry and decoder bookkeeping *)

(** The number of entries the registry holds for a key. *)
Definition entries_for (key : string) (entries : list (string * nat)) : nat :=
  length (filter (fun entry => entry.1 = key) entries).

(** No key occurs twice among the entries. *)
Definition registry_ok (w : World) : Prop := NoDup (audioQueues w).*1.

(** A handler keeps the registry well formed, however it completes. *)
Definition preserves {A} (m : M A) : Prop :=
  forall w : World, registry_ok w -> registry_ok (snd (m w)).

(** A decoder is released once its flag is down. *)
Definition released (d : Decoder) (w : World) : Prop := decoders w !! d = Some false.

(** The world after two chunks, the first refused by the decoder and the
    second decoded to [pcm]. *)
Definition after_bad_then_good
    (queue : nat) (d : Decoder) (bad good pcm : list byte) (w : World) : World :=
  set_heap (alter (fun q => mkAudioQueue (connection q) (audioChunks q ++ [pcm])) queue)
    (set_trace (fun t => t ++ [EvNextChunk (IsBuffer bad); EvDecode d bad;
                               EvNextChunk (IsBuffer good); EvDecode d good]) w).

(** ** A concrete scenario *)

(** Collaborators that all succeed; the decoder rejects an empty frame and
    otherwise answers the frame twice over. *)
Definition env_ok : Env := {|
  reply_outcome := fun _ _ => Normal tt;
  send_outcome := fun _ _ => Normal tt;
  joinVoiceChannel_outcome := fun _ _ _ => Normal 7%nat;
  destroy_outcome := fun _ _ => Normal tt;
  writeFile_outcome := fun _ _ _ => Normal tt;
  stat_outcome := fun _ _ => Normal 48;
  transcription_outcome := fun _ _ => Normal "hello"%string;
  chat_completion_outcome := fun _ _ => Normal (Some "summary"%string);
  unlink_outcome := fun _ _ => Normal tt;
  new_OpusScript_outcome := fun _ => Normal tt;
  decode_outcome := fun _ _ chunk =>
    match chunk with
    | [] => Throw (Failure "corrupt frame")
    | _ => Normal (Some (chunk ++ chunk))
    end;
  decoder_delete_outcome := fun _ _ => Normal tt;
|}.

(** As [env_ok], but every transcription request fails. *)
Definition env_no_transcription : Env := {|
  reply_outcome := reply_outcome env_ok;
  send_outcome := send_outcome env_ok;
  joinVoiceChannel_outcome := joinVoiceChannel_outcome env_ok;
  destroy_outcome := destroy_outcome env_ok;
  writeFile_outcome := writeFile_outcome env_ok;
  stat_outcome := stat_outcome env_ok;
  transcription_outcome := fun _ _ => Throw (Failure "503");
  chat_completion_outcome := chat_completion_outcome env_ok;
  unlink_outcome := unlink_outcome env_ok;
  new_OpusScript_outcome := new_OpusScript_outcome env_ok;
  decode_outcome := decode_outcome env_ok;
  decoder_delete_outcome := decoder_delete_outcome env_ok;
|}.

(** As [env_ok], but the recording cannot be written. *)
Definition env_disk_full : Env := {|
  reply_outcome := reply_outcome env_ok;
  send_outcome := send_outcome env_ok;
  joinVoiceChannel_outcome := joinVoiceChannel_outcome env_ok;
  destroy_outcome := destroy_outcome env_ok;
  writeFile_outcome := fun _ _ _ => Throw (Failure "ENOSPC");
  stat_outcome := stat_outcome env_ok;
  transcription_outcome := transcription_outcome env_ok;
  chat_completion_outcome := chat_completion_outcome env_ok;
  unlink_outcome := unlink_outcome env_ok;
  new_OpusScript_outcome := new_OpusScript_outcome env_ok;
  decode_outcome := decode_outcome env_ok;
  decoder_delete_outcome := decoder_delete_outcome env_ok;
|}.

Definition lobby : VoiceBasedChannel := mkVoiceBasedChannel "lobby" "g1".

(** A member of guild g1 who sits in the lobby, and one who sits nowhere. *)
Definition from_lobby : Message := mkMessage 1 (Some lobby) (Some "g1"%string) true.
Definition from_nowhere : Message := mkMessage 2 None (Some "g1"%string) true.

(** A speaking turn of two frames that ends on silence, and the same turn
    cut by a connection loss. *)
Definition turn : AudioReceiveStream :=
  mkAudioReceiveStream [IsBuffer [x01]; IsBuffer [x02; x03]] None.
Definition turn_lost : AudioReceiveStream :=
  mkAudioReceiveStream [IsBuffer [x01]; IsBuffer [x02; x03]] (Some (Failure "connection lost")).

(** The world once the bot has joined the lobby. *)
Definition joined : World := after env_ok (Join from_lobby) initial.

(** The world once that turn has been recorded: the session holds two
    chunks, of 2 and 4 bytes. *)
Definition recorded : World := after env_ok (Speaking turn "g1") joined.

(** The file [handleLeaveCommand] writes for guild g1, and its content for
    the recorded turn. *)
Definition recording_g1 : string := "recording_g1.wav".
Definition recording_g1_data : list byte :=
  wav_header_layout 6 ++ [x01; x01; x02; x03; x02; x03].

(** ** What a handler may change *)

(** Every run of the handler relates the world before to the world after,
    however the handler completes. *)
Definition steps (R : World -> World -> Prop) {A} (m : M A) : Prop :=
  forall w : World, R w (snd (m w)).

(** The trace only grows. *)
Definition trace_grows (w w' : World) : Prop := trace w `prefix_of` trace w'.

(** The registry is as it was. *)
Definition same_registry (w w' : World) : Prop := audioQueues w' = audioQueues w.

(** The queue objects are as they were. *)
Definition same_heap (w w' : World) : Prop := heap w' = heap w.

(** The key finds what it found. *)
Definition same_entry (key : string) (w w' : World) : Prop :=
  Map_get (audioQueues w') key = Map_get (audioQueues w) key.

(** Every queue object but [queue] is as it was, and no object is added. *)
Definition other_queues (queue : nat) (w w' : World) : Prop :=
  length (heap w') = length (heap w)
  /\ forall r : nat, r <> queue -> heap w' !! r = heap w !! r.

(** A queue object keeps its connection, and its chunks stay where they
    are: chunks are only added behind them. *)
Definition heap_grows (w w' : World) : Prop :=
  forall (r : nat) (q : AudioQueue), heap w !! r = Some q ->
    exists q' : AudioQueue,
      heap w' !! r = Some q'
      /\ connection q' = connection q
      /\ audioChunks q `prefix_of` audioChunks q'.

(** No queue object holds an empty chunk. *)
Definition chunks_nonempty (w : World) : Prop :=
  forall (r : nat) (q : AudioQueue) (c : list byte),
    heap w !! r = Some q -> c ∈ audioChunks q -> (0 < length c)%nat.

(** A property of worlds, read as a relation: once true, still true. *)
Definition keeping (P : World -> Prop) (w w' : World) : Prop := P w -> P w'.

(** The guild a request is about, if any. *)
Definition concerns (r : Request) : option string :=
  match r with
  | Join message => channel_guild_id <$> member_voice_channel message
  | Leave message => message_guild_id message
  | Speaking _ guildId => Some guildId
  end.

(** The chunks of a stream that are [Buffer]s, in stream order. *)
Definition stream_buffers (items : list StreamItem) : list (list byte) :=
  omap (fun item => match item with IsBuffer chunk => Some chunk | NotBuffer => None end)
       items.

(** ** More collaborators for the scenario *)

(** As [env_ok], but the voice channel cannot be joined. *)
Definition env_no_voice : Env := {|
  reply_outcome := reply_outcome env_ok;
  send_outcome := send_outcome env_ok;
  joinVoiceChannel_outcome := fun _ _ _ => Throw (Failure "cannot connect");
  destroy_outcome := destroy_outcome env_ok;
  writeFile_outcome := writeFile_outcome env_ok;
  stat_outcome := stat_outcome env_ok;
  transcription_outcome := transcription_outcome env_ok;
  chat_completion_outcome := chat_completion_outcome env_ok;
  unlink_outcome := unlink_outcome env_ok;
  new_OpusScript_outcome := new_OpusScript_outcome env_ok;
  decode_outcome := decode_outcome env_ok;
  decoder_delete_outcome := decoder_delete_outcome env_ok;
|}.

(** The transcription requests logged so far. *)
Definition transcriptions_so_far (t : list Event) : nat :=
  length (omap (fun ev => match ev with EvTranscription f => Some f | _ => None end) t).

(** As [env_ok], but the first two transcription requests fail. *)
Definition env_flaky : Env := {|
  reply_outcome := reply_outcome env_ok;
  send_outcome := send_outcome env_ok;
  joinVoiceChannel_outcome := joinVoiceChannel_outcome env_ok;
  destroy_outcome := destroy_outcome env_ok;
  writeFile_outcome := writeFile_outcome env_ok;
  stat_outcome := stat_outcome env_ok;
  transcription_outcome := fun t _ =>
    if decide (transcriptions_so_far t < 2)%nat
    then Throw (Failure "503") else Normal "hello"%string;
  chat_completion_outcome := chat_completion_outcome env_ok;
  unlink_outcome := unlink_outcome env_ok;
  new_OpusScript_outcome := new_OpusScript_outcome env_ok;
  decode_outcome := decode_outcome env_ok;
  decoder_delete_outcome := decoder_delete_outcome env_ok;
|}.

(** As [env_ok], but the decoder answers every frame, with the frame behind
    a zero byte. *)
Definition env_echo : Env := {|
  reply_outcome := reply_outcome env_ok;
  send_outcome := send_outcome env_ok;
  joinVoiceChannel_outcome := joinVoiceChannel_outcome env_ok;
  destroy_outcome := destroy_outcome env_ok;
  writeFile_outcome := writeFile_outcome env_ok;
  stat_outcome := stat_outcome env_ok;
  transcription_outcome := transcription_outcome env_ok;
  chat_completion_outcome := chat_completion_outcome env_ok;
  unlink_outcome := unlink_outcome env_ok;
  new_OpusScript_outcome := new_OpusScript_outcome env_ok;
  decode_outcome := fun _ _ chunk => Normal (Some (x00 :: chunk));
  decoder_delete_outcome := decoder_delete_outcome env_ok;
|}.

(** As [env_ok], but the file on disk is empty. *)
Definition env_empty_file : Env := {|
  reply_outcome := reply_outcome env_ok;
  send_outcome := send_outcome env_ok;
  joinVoiceChannel_outcome := joinVoiceChannel_outcome env_ok;
  destroy_outcome := destroy_outcome env_ok;
  writeFile_outcome := writeFile_outcome env_ok;
  stat_outcome := fun _ _ => Normal 0;
  transcription_outcome := transcription_outcome env_ok;
  chat_completion_outcome := chat_completion_outcome env_ok;
  unlink_outcome := unlink_outcome env_ok;
  new_OpusScript_outcome := new_OpusScript_outcome env_ok;
  decode_outcome := decode_outcome env_ok;
  decoder_delete_outcome := decoder_delete_outcome env_ok;
|}.

(** A member of guild g2, where the bot has no session. *)
Definition from_g2 : Message := mkMessage 3 None (Some "g2"%string) true.

(** The occurrences of a character in a string. *)
Fixpoint String_count (c : ascii) (text : string) : nat :=
  match text with
  | EmptyString => 0
  | String c' rest => (if decide (c' = c) then 1 else 0) + String_count c rest
  end.

(** The traces [transcribeAudio] can add for a file: the size check alone,
    or one, two or three requests with the waits between them. *)
Definition transcribeAudio_traces (filename : string) : list (list Event) :=
  [ [EvStat filename];
    [EvStat filename; EvTranscription filename];
    [EvStat filename; EvTranscription filename; EvSetTimeout 1000;
     EvTranscription filename];
    [EvStat filename; EvTranscription filename; EvSetTimeout 1000;
     EvTranscription filename; EvSetTimeout 2000; EvTranscription filename] ].

(** ** handleMessage *)

(** [interface BotConfig] of types.ts. *)
Module BotConfig.
Record t : Type := mk {
  token : string;
  prefix : string;
}.
End BotConfig.

(** What [handleMessage] reads of a message before it dispatches: [content]
    and [author.bot]; the handlers then read the rest. *)
Record MessageCreate : Type := mkMessageCreate {
  content : string;
  author_bot : bool;
  received : Message;
}.

(** [String.prototype.trim] and [toLowerCase] follow Unicode tables and are
    taken as given. *)
Record StringMethods : Type := mkStringMethods {
  trim : string -> string;
  toLowerCase : string -> string;
}.

(** [text.slice(start)]. *)
Fixpoint String_slice (start : nat) (text : string) : string :=
  match start, text with
  | O, _ => text
  | S start', String _ rest => String_slice start' rest
  | S _, EmptyString => EmptyString
  end.

(** [text.split(/ +/)]: pieces between maximal runs of spaces; [in_run]
    tells that the character before was a space of the current run. *)
Fixpoint split_spaces_from (in_run : bool) (text : string) : list string :=
  match text with
  | EmptyString => [EmptyString]
  | String c rest =>
      if decide (c = " "%char) then
        if in_run then split_spaces_from true rest
        else EmptyString :: split_spaces_from true rest
      else
        match split_spaces_from false rest with
        | piece :: pieces => String c piece :: pieces
        | [] => [String c EmptyString]
        end
  end.

Definition String_split_spaces (text : string) : list string :=
  split_spaces_from false text.

(** The prefix is found by [startsWith] and removed by
    [slice(prefix.length)]; [args.shift()] is the first piece. *)
Definition handleMessage
    (js : StringMethods) (env : Env) (config : BotConfig.t) (message : MessageCreate) : M unit :=
  if negb (String.prefix (BotConfig.prefix config) (content message)) || author_bot message
  then M.ret tt
  else
    let args :=
      String_split_spaces
        (trim js (String_slice (String.length (BotConfig.prefix config)) (content message))) in
    let command := toLowerCase js <$> head args in
    if decide (command = Some "join"%string) then handleJoinCommand env (received message)
    else if decide (command = Some "leave"%string) then handleLeaveCommand env (received message)
    else M.ret tt.

(** The configuration of index.ts, apart from the token read from the
    process environment. *)
Definition botConfig (token : string) : BotConfig.t := BotConfig.mk token "!".

(** String methods that leave their argument alone, as [trim] does on a
    text without outer white space and [toLowerCase] on a lower-case one. *)
Definition already_trimmed_lower : StringMethods := mkStringMethods id id.

(** As [env_ok], but no decoder can be built. *)
Definition env_no_decoder : Env := {|
  reply_outcome := reply_outcome env_ok;
  send_outcome := send_outcome env_ok;
  joinVoiceChannel_outcome := joinVoiceChannel_outcome env_ok;
  destroy_outcome := destroy_outcome env_ok;
  writeFile_outcome := writeFile_outcome env_ok;
  stat_outcome := stat_outcome env_ok;
  transcription_outcome := transcription_outcome env_ok;
  chat_completion_outcome := chat_completion_outcome env_ok;
  unlink_outcome := unlink_outcome env_ok;
  new_OpusScript_outcome := fun _ => Throw (Failure "no codec");
  decode_outcome := decode_outcome env_ok;
  decoder_delete_outcome := decoder_delete_outcome env_ok;
|}.

(** The world a subscription has reached once it has handled the frames
    [frames]: the world a turn leaves when it is cut there by an error,
    which the outer [catch] absorbs without a further step. *)
Definition after_frames (env : Env) (frames : list StreamItem) (guildId : string)
    (w : World) : World :=
  snd (handleAudioStream env (mkAudioReceiveStream frames (Some (Failure "cut"))) guildId w).

(** * Properties *)

(** ** Bytes *)

Lemma Z_of_byte_of_Z (value : Z) : Z_of_byte (byte_of_Z value) = value mod 256.
Proof.
  unfold Z_of_byte, byte_of_Z.
  assert (H : 0 <= value mod 256 < 256) by (apply Z.mod_pos_bound; lia).
  destruct (Byte.of_N (Z.to_N (value mod 256))) as [b|] eqn:E; simpl.
  - apply Byte.to_of_N in E. rewrite E. lia.
  - apply Byte.of_N_None_iff in E. lia.
Qed.

Lemma Z_of_byte_range (b : byte) : 0 <= Z_of_byte b < 256.
Proof. unfold Z_of_byte. pose proof (Byte.to_N_bounded b). lia. Qed.

Lemma le_bytes_length (width : nat) (value : Z) : length (le_bytes width value) = width.
Proof. revert value. induction width; intros; simpl; auto. Qed.

Lemma le32_value (value : Z) :
  0 <= value <= 4294967295 ->
  value mod 256 + (value / 256) mod 256 * 2 ^ 8
  + (value / 256 / 256) mod 256 * 2 ^ 16
  + (value / 256 / 256 / 256) mod 256 * 2 ^ 24 = value.
Proof.
  intros H.
  pose proof (Z.div_mod value 256 ltac:(lia)).
  pose proof (Z.div_mod (value / 256) 256 ltac:(lia)).
  pose proof (Z.div_mod (value / 256 / 256) 256 ltac:(lia)).
  assert (value / 256 / 256 / 256 < 256).
  { rewrite !Z.div_div by lia. apply Z.div_lt_upper_bound; lia. }
  assert (0 <= value / 256 / 256 / 256).
  { rewrite !Z.div_div by lia. apply Z.div_pos; lia. }
  rewrite (Z.mod_small (value / 256 / 256 / 256)) by lia.
  lia.
Qed.

(** ** Writes that succeed *)

Lemma Buffer_write_ok (buf : Buffer) (s : string) (offset : nat) :
  (offset <= length buf)%nat ->
  Buffer_write buf s offset = Normal (list_inserts offset (String.list_byte_of_string s) buf).
Proof. intros H. unfold Buffer_write. destruct (decide _); [reflexivity | lia]. Qed.

Lemma writeUInt32LE_ok (buf : Buffer) (value : Z) (offset : nat) :
  0 <= value <= 4294967295 ->
  (offset + 4 <= length buf)%nat ->
  writeUInt32LE buf value offset
  = Normal (<[(offset + 3)%nat := byte_of_Z (value / 256 / 256 / 256)]>
            (<[(offset + 2)%nat := byte_of_Z (value / 256 / 256)]>
             (<[(offset + 1)%nat := byte_of_Z (value / 256)]>
              (<[offset := byte_of_Z value]> buf)))).
Proof.
  intros Hv Ho. unfold writeUInt32LE.
  destruct (decide (0 <= value <= 4294967295)); [| lia].
  destruct (decide (offset + 4 <= length buf)%nat); [| lia].
  rewrite !Z.shiftr_div_pow2 by lia. reflexivity.
Qed.

Lemma writeUInt16LE_ok (buf : Buffer) (value : Z) (offset : nat) :
  0 <= value <= 65535 ->
  (offset + 2 <= length buf)%nat ->
  writeUInt16LE buf value offset
  = Normal (<[(offset + 1)%nat := byte_of_Z (value / 256)]>
            (<[offset := byte_of_Z value]> buf)).
Proof.
  intros Hv Ho. unfold writeUInt16LE.
  destruct (decide (0 <= value <= 65535)); [| lia].
  destruct (decide (offset + 2 <= length buf)%nat); [| lia].
  rewrite !Z.shiftr_div_pow2 by lia. reflexivity.
Qed.

Lemma writeUInt32LE_out_of_range (buf : Buffer) (value : Z) (offset : nat) :
  4294967295 < value ->
  writeUInt32LE buf value offset = Throw (RangeError "ERR_OUT_OF_RANGE").
Proof.
  intros H. unfold writeUInt32LE.
  destruct (decide (0 <= value <= 4294967295)); [lia | reflexivity].
Qed.

Ltac buffer_room :=
  repeat first [ rewrite length_insert | rewrite length_inserts ];
  unfold Buffer_alloc; rewrite length_replicate; lia.

(** ** The serializer *)

Lemma createWavBuffer_header (payload : Buffer) :
  36 + Z.of_nat (length payload) <= 4294967295 ->
  createWavBuffer payload
  = Normal (wav_header_layout (Z.of_nat (length payload)) ++ payload).
Proof.
  intros H. unfold createWavBuffer.
  rewrite Buffer_write_ok by buffer_room. cbn [Pure.bind].
  rewrite writeUInt32LE_ok by (try lia; buffer_room). cbn [Pure.bind].
  rewrite Buffer_write_ok by buffer_room. cbn [Pure.bind].
  rewrite Buffer_write_ok by buffer_room. cbn [Pure.bind].
  rewrite writeUInt32LE_ok by (try lia; buffer_room). cbn [Pure.bind].
  rewrite writeUInt16LE_ok by (try lia; buffer_room). cbn [Pure.bind].
  rewrite writeUInt16LE_ok by (try (unfold numChannels; lia); buffer_room).
  cbn [Pure.bind].
  rewrite writeUInt32LE_ok by (try (unfold sampleRate; lia); buffer_room).
  cbn [Pure.bind].
  rewrite writeUInt32LE_ok by (try (vm_compute; split; discriminate); buffer_room).
  cbn [Pure.bind].
  rewrite writeUInt16LE_ok by (try (vm_compute; split; discriminate); buffer_room).
  cbn [Pure.bind].
  rewrite writeUInt16LE_ok by (try (unfold bitsPerSample; lia); buffer_room).
  cbn [Pure.bind].
  rewrite Buffer_write_ok by buffer_room. cbn [Pure.bind].
  rewrite writeUInt32LE_ok by (try lia; buffer_room). cbn [Pure.bind].
  unfold Buffer_concat. cbn [concat]. rewrite app_nil_r.
  f_equal.
Qed.

(** Reading a little-endian field back at its place in a buffer. *)
Lemma readUInt32LE_at (pre post : list byte) (value : Z) (offset : nat) :
  length pre = offset ->
  0 <= value <= 4294967295 ->
  readUInt32LE (pre ++ le_bytes 4 value ++ post) offset = Some value.
Proof.
  intros <- Hv. unfold readUInt32LE.
  rewrite (lookup_app_r pre _ (length pre)) by lia.
  rewrite (lookup_app_r pre _ (length pre + 1)) by lia.
  rewrite (lookup_app_r pre _ (length pre + 2)) by lia.
  rewrite (lookup_app_r pre _ (length pre + 3)) by lia.
  replace (length pre - length pre)%nat with 0%nat by lia.
  replace (length pre + 1 - length pre)%nat with 1%nat by lia.
  replace (length pre + 2 - length pre)%nat with 2%nat by lia.
  replace (length pre + 3 - length pre)%nat with 3%nat by lia.
  cbn [le_bytes app lookup list_lookup].
  rewrite !Z_of_byte_of_Z. f_equal. apply le32_value, Hv.
Qed.

Lemma readUInt16LE_at (pre post : list byte) (value : Z) (offset : nat) :
  length pre = offset ->
  0 <= value <= 65535 ->
  readUInt16LE (pre ++ le_bytes 2 value ++ post) offset = Some value.
Proof.
  intros <- Hv. unfold readUInt16LE.
  rewrite (lookup_app_r pre _ (length pre)) by lia.
  rewrite (lookup_app_r pre _ (length pre + 1)) by lia.
  replace (length pre - length pre)%nat with 0%nat by lia.
  replace (length pre + 1 - length pre)%nat with 1%nat by lia.
  cbn [le_bytes app lookup list_lookup].
  rewrite !Z_of_byte_of_Z. f_equal.
  pose proof (Z.div_mod value 256 ltac:(lia)).
  assert (0 <= value / 256 < 256).
  { split; [apply Z.div_pos; lia | apply Z.div_lt_upper_bound; lia]. }
  rewrite (Z.mod_small (value / 256)) by lia. lia.
Qed.

Lemma wav_header_layout_length (dataLength : Z) :
  length (wav_header_layout dataLength) = 44%nat.
Proof. reflexivity. Qed.

(** The two size fields of the layout read back as written. *)
Lemma layout_chunk_size (dataLength : Z) :
  0 <= 36 + dataLength <= 4294967295 ->
  readUInt32LE (wav_header_layout dataLength) 4 = Some (36 + dataLength).
Proof.
  intros H. unfold wav_header_layout.
  apply readUInt32LE_at; [reflexivity | exact H].
Qed.

Lemma layout_data_size (dataLength : Z) :
  0 <= dataLength <= 4294967295 ->
  readUInt32LE (wav_header_layout dataLength) 40 = Some dataLength.
Proof.
  intros H. unfold wav_header_layout.
  rewrite <- (app_nil_r (le_bytes 4 dataLength)).
  rewrite !app_assoc. rewrite <- (app_assoc _ (le_bytes 4 dataLength) []).
  apply readUInt32LE_at; [| exact H].
  rewrite !length_app, !le_bytes_length. reflexivity.
Qed.

(** The fixed fields of the layout, whatever the payload length. *)
Lemma layout_fixed_fields (dataLength : Z) :
  readUInt16LE (wav_header_layout dataLength) 20 = Some 1
  /\ readUInt16LE (wav_header_layout dataLength) 22 = Some 2
  /\ readUInt32LE (wav_header_layout dataLength) 24 = Some 48000
  /\ readUInt16LE (wav_header_layout dataLength) 34 = Some 16
  /\ readUInt16LE (wav_header_layout dataLength) 32 = Some 4
  /\ readUInt32LE (wav_header_layout dataLength) 28 = Some 192000.
Proof. repeat split; vm_compute; reflexivity. Qed.

(** Reading inside the header is not disturbed by the payload behind it. *)
Lemma readUInt32LE_app_l (header payload : list byte) (offset : nat) :
  (offset + 4 <= length header)%nat ->
  readUInt32LE (header ++ payload) offset = readUInt32LE header offset.
Proof.
  intros H. unfold readUInt32LE. rewrite !lookup_app_l by lia. reflexivity.
Qed.

Lemma readUInt16LE_app_l (header payload : list byte) (offset : nat) :
  (offset + 2 <= length header)%nat ->
  readUInt16LE (header ++ payload) offset = readUInt16LE header offset.
Proof.
  intros H. unfold readUInt16LE. rewrite !lookup_app_l by lia. reflexivity.
Qed.

Lemma payload_4GiB_length : Z.of_nat (length payload_4GiB) = 4294967260.
Proof. unfold payload_4GiB. rewrite length_replicate. apply Z2Nat.id. lia. Qed.

(** A chunk size beyond the 32-bit field: the second write throws. *)
Lemma createWavBuffer_too_long (payload : list byte) :
  4294967295 < 36 + Z.of_nat (length payload) ->
  createWavBuffer payload = Throw (RangeError "ERR_OUT_OF_RANGE").
Proof.
  intros H. unfold createWavBuffer.
  rewrite Buffer_write_ok by buffer_room. cbn [Pure.bind].
  rewrite writeUInt32LE_out_of_range by exact H. reflexivity.
Qed.

Lemma createWavBuffer_4GiB :
  createWavBuffer payload_4GiB = Throw (RangeError "ERR_OUT_OF_RANGE").
Proof.
  apply createWavBuffer_too_long. rewrite payload_4GiB_length. lia.
Qed.

(** C4 (as amended). For every payload of at most 4294967259 bytes
    (36 + length within an unsigned 32-bit field), [createWavBuffer] yields a
    header of exactly 44 bytes followed by the payload; the header is the
    layout of the format's table byte for byte: uint32-LE 36 + length at
    offset 4, uint32-LE length at offset 40, format tag 1, 2 channels,
    sample rate 48000, 16 bits per sample, block align 4 and byte rate
    192000, all little-endian. *)
Theorem createWavBuffer_serializes (payload : list byte) :
  36 + Z.of_nat (length payload) <= 4294967295 ->
  serializes payload.
Proof.
  intros H. exists (wav_header_layout (Z.of_nat (length payload))).
  destruct (layout_fixed_fields (Z.of_nat (length payload)))
    as (F20 & F22 & F24 & F34 & F32 & F28).
  split; [apply createWavBuffer_header, H |].
  split; [apply wav_header_layout_length |].
  split; [reflexivity |].
  split; [apply layout_chunk_size; lia |].
  split; [apply layout_data_size; lia |].
  repeat split; assumption.
Qed.

Lemma createWavBuffer_serializes_witness :
  36 + Z.of_nat (length [x01; x02; x03]) <= 4294967295
  /\ serializes [x01; x02; x03].
Proof.
  split; [simpl; lia |].
  apply (createWavBuffer_serializes [x01; x02; x03]). simpl. lia.
Defined.

(** C4 as stated fails: on a payload of 4294967260 bytes the chunk size
    36 + length is 2^32, [writeUInt32LE] refuses it, and nothing is
    serialized. *)
Lemma createWavBuffer_serializes_not_every_payload : ~ serializes payload_4GiB.
Proof.
  intros (header & Hc & _). rewrite createWavBuffer_4GiB in Hc. discriminate.
Qed.

(** The derived constants of the serializer. *)
Lemma blockAlign_byteRate :
  blockAlign = numChannels * (bitsPerSample / 8) /\ blockAlign = 4
  /\ byteRate = sampleRate * blockAlign /\ byteRate = 192000.
Proof. repeat split. Qed.

(** C5 (as amended). For every payload of at most 4294967259 bytes, the
    empty payload included, parsing the header of [createWavBuffer payload]
    recovers 2 channels, sample rate 48000, 16 bits per sample and a data
    length equal to the payload's length. The serializer is a function of
    the payload alone and touches nothing of the world. *)
Theorem createWavBuffer_round_trips (payload : list byte) :
  36 + Z.of_nat (length payload) <= 4294967295 ->
  round_trips payload.
Proof.
  intros H.
  exists (wav_header_layout (Z.of_nat (length payload)) ++ payload).
  split; [apply createWavBuffer_header, H |].
  destruct (layout_fixed_fields (Z.of_nat (length payload)))
    as (_ & F22 & F24 & F34 & _).
  unfold parseWavHeader.
  rewrite !readUInt16LE_app_l, !readUInt32LE_app_l
    by (rewrite wav_header_layout_length; lia).
  rewrite F22, F24, F34, layout_data_size by lia.
  reflexivity.
Qed.

Lemma createWavBuffer_round_trips_witness :
  36 + Z.of_nat (length (@nil byte)) <= 4294967295 /\ round_trips [].
Proof.
  split; [simpl; lia |].
  apply (createWavBuffer_round_trips []). simpl. lia.
Defined.

(** C5 as stated fails: the payload of 4294967260 bytes has no container to
    parse. *)
Lemma createWavBuffer_round_trip_not_every_payload : ~ round_trips payload_4GiB.
Proof.
  intros (container & Hc & _). rewrite createWavBuffer_4GiB in Hc. discriminate.
Qed.

(** ** The session buffer *)

Lemma foldl_push (acc chunks : list (list byte)) :
  foldl push acc chunks = acc ++ chunks.
Proof.
  revert acc. induction chunks as [| c chunks IH]; intros acc; simpl.
  - symmetry. apply app_nil_r.
  - rewrite IH. unfold push. rewrite <- app_assoc. reflexivity.
Qed.

Lemma totalSize_from (acc : Z) (chunks : list (list byte)) :
  foldl (fun acc buf => acc + Z.of_nat (length buf)) acc chunks
  = acc + Z.of_nat (sum_list_with length chunks).
Proof.
  revert acc. induction chunks as [| c chunks IH]; intros acc; simpl.
  - lia.
  - rewrite IH. lia.
Qed.

Lemma totalSize_sum (chunks : list (list byte)) :
  totalSize chunks = Z.of_nat (sum_list_with length chunks).
Proof. unfold totalSize. rewrite totalSize_from. lia. Qed.

(** The three list operations on their own: pushes onto the empty array
    give the chunks in push order, [Buffer.concat] concatenates them, and
    the reduce sums their lengths after any number of pushes. *)
Lemma push_drain_totalSize (chunks : list (list byte)) :
  foldl push [] chunks = chunks
  /\ drain (foldl push [] chunks) = concat chunks
  /\ forall n : nat,
       totalSize (foldl push [] (take n chunks))
       = Z.of_nat (sum_list_with length (take n chunks)).
Proof.
  split; [apply foldl_push |].
  split; [rewrite foldl_push; reflexivity |].
  intros n. rewrite foldl_push. apply totalSize_sum.
Qed.

(** ** Worlds *)

Lemma World_eq (w1 w2 : World) :
  heap w1 = heap w2 -> audioQueues w1 = audioQueues w2 ->
  decoders w1 = decoders w2 -> trace w1 = trace w2 -> w1 = w2.
Proof. destruct w1, w2; simpl; intros; subst; reflexivity. Qed.

Ltac step_m :=
  unfold M.bind, M.ret, M.throw, M.call, M.try_catch, M.try_finally,
         M.get, M.modify, M.lift; cbn.

Lemma bind_unfold {A B} (m : M A) (k : A -> M B) (w : World) :
  M.bind m k w
  = match m w with
    | (Normal a, w') => k a w'
    | (Throw e, w') => (Throw e, w')
    end.
Proof. reflexivity. Qed.

(** ** handleAudioStream *)

(** C10. When the registry has no entry for the guild, [handleAudioStream]
    returns at once and leaves the world as it was: no decoder is built,
    no chunk is taken from the stream, nothing is pushed. *)
Theorem handleAudioStream_without_session
    (env : Env) (audioStream : AudioReceiveStream) (guildId : string) (w : World) :
  Map_get (audioQueues w) guildId = None ->
  handleAudioStream env audioStream guildId w = (Normal tt, w).
Proof.
  intros H. unfold handleAudioStream, audioQueues_get. step_m.
  rewrite H. reflexivity.
Qed.

Lemma handleAudioStream_without_session_witness :
  Map_get (audioQueues initial) "g1" = None
  /\ handleAudioStream env_ok turn "g1" initial = (Normal tt, initial).
Proof.
  split; [reflexivity |].
  apply (handleAudioStream_without_session env_ok turn "g1" initial).
  reflexivity.
Defined.

(** Two turns of the loop: a chunk the decoder throws on, then a chunk
    decoded to a non-empty [pcm]; the rest of the stream is handled from the
    world these two leave. *)
Lemma for_await_items_bad_then_good
    (env : Env) (queue : nat) (d : Decoder) (bad good pcm : list byte) (e : Exn)
    (rest : list StreamItem) (w : World) :
  decode_outcome env (trace w ++ [EvNextChunk (IsBuffer bad)]) d bad = Throw e ->
  decode_outcome env (trace w ++ [EvNextChunk (IsBuffer bad); EvDecode d bad;
                                  EvNextChunk (IsBuffer good)]) d good
  = Normal (Some pcm) ->
  (0 < length pcm)%nat ->
  for_await_items (IsBuffer bad :: IsBuffer good :: rest) (handleChunk env queue d) w
  = for_await_items rest (handleChunk env queue d)
                    (after_bad_then_good queue d bad good pcm w).
Proof.
  intros Hbad Hgood Hpcm.
  unfold for_await_items. cbn [M.for_each].
  unfold handleChunk at 1 2, decoder_decode, audioChunks_push. step_m.
  rewrite Hbad. cbn.
  repeat rewrite <- app_assoc. cbn [app].
  rewrite Hgood. cbn.
  destruct (decide (0 < length pcm)%nat); [| lia]. cbn.
  f_equal. apply World_eq; cbn; try reflexivity.
  repeat rewrite <- app_assoc. reflexivity.
Qed.


(** ** handleJoinCommand *)

(** C8. A join whose requester is in no voice channel replies the error to
    that requester and does nothing else: the reply is the only call made
    (so no voice connection is opened), and the registry, the queue objects
    and the decoders are as before. *)
Theorem handleJoinCommand_not_in_channel (env : Env) (message : Message) (w : World) :
  member_voice_channel message = None ->
  trace (snd (handleJoinCommand env message w))
  = trace w ++ [EvReply (message_id message) "You need to be in a voice channel first!"]
  /\ audioQueues (snd (handleJoinCommand env message w)) = audioQueues w
  /\ heap (snd (handleJoinCommand env message w)) = heap w
  /\ decoders (snd (handleJoinCommand env message w)) = decoders w.
Proof.
  intros H. unfold handleJoinCommand. rewrite H.
  unfold reply. step_m. repeat split.
Qed.

Lemma handleJoinCommand_not_in_channel_witness :
  trace (snd (handleJoinCommand env_ok from_nowhere joined))
  = trace joined ++ [EvReply 2 "You need to be in a voice channel first!"]
  /\ audioQueues (snd (handleJoinCommand env_ok from_nowhere joined)) = audioQueues joined
  /\ heap (snd (handleJoinCommand env_ok from_nowhere joined)) = heap joined
  /\ decoders (snd (handleJoinCommand env_ok from_nowhere joined)) = decoders joined.
Proof.
  apply (handleJoinCommand_not_in_channel env_ok from_nowhere joined).
  reflexivity.
Defined.

(** ** The registry *)

Lemma Map_set_elem_of {V} (entries : list (string * V)) (key k : string) (value : V) :
  k ∈ (Map_set entries key value).*1 <-> k ∈ entries.*1 \/ k = key.
Proof.
  induction entries as [| [k' v] rest IH]; simpl.
  - set_solver.
  - case_decide; subst; simpl; set_solver.
Qed.

Lemma Map_set_NoDup {V} (entries : list (string * V)) (key : string) (value : V) :
  NoDup entries.*1 -> NoDup (Map_set entries key value).*1.
Proof.
  induction entries as [| [k v] rest IH]; simpl; intros H.
  - apply NoDup_singleton.
  - apply NoDup_cons in H. destruct H as [Hk Hrest].
    case_decide; subst; simpl; apply NoDup_cons; split; auto.
    rewrite Map_set_elem_of. intros [Hin | ->]; [exact (Hk Hin) | congruence].
Qed.

Lemma Map_delete_elem_of {V} (entries : list (string * V)) (key k : string) :
  k ∈ (Map_delete entries key).*1 -> k ∈ entries.*1.
Proof.
  induction entries as [| [k' v] rest IH]; simpl; [auto |].
  case_decide; subst; simpl; set_solver.
Qed.

Lemma Map_delete_NoDup {V} (entries : list (string * V)) (key : string) :
  NoDup entries.*1 -> NoDup (Map_delete entries key).*1.
Proof.
  induction entries as [| [k v] rest IH]; simpl; [auto |].
  intros H. apply NoDup_cons in H. destruct H as [Hk Hrest].
  case_decide; subst; simpl; [exact Hrest |].
  apply NoDup_cons. split; [| apply IH, Hrest].
  intros Hin. apply Hk. eapply Map_delete_elem_of, Hin.
Qed.

(** With distinct keys, [get] after [delete] finds nothing. *)
Lemma Map_get_delete {V} (entries : list (string * V)) (key : string) :
  NoDup entries.*1 -> Map_get (Map_delete entries key) key = None.
Proof.
  induction entries as [| [k v] rest IH]; simpl; [auto |].
  intros H. apply NoDup_cons in H. destruct H as [Hk Hrest].
  case_decide; subst; simpl.
  - clear IH Hrest. induction rest as [| [k' v'] rest IH]; simpl; [auto |].
    case_decide; subst; [set_solver | apply IH; set_solver].
  - case_decide; [congruence | apply IH, Hrest].
Qed.

Lemma filter_key_absent (key : string) (entries : list (string * nat)) :
  key ∉ entries.*1 -> filter (fun entry => entry.1 = key) entries = [].
Proof.
  induction entries as [| [k v] rest IH]; simpl; intros H; [reflexivity |].
  rewrite filter_cons. simpl. case_decide; subst; [set_solver |].
  apply IH. set_solver.
Qed.

Lemma entries_for_NoDup (key : string) (entries : list (string * nat)) :
  NoDup entries.*1 -> (entries_for key entries <= 1)%nat.
Proof.
  unfold entries_for. induction entries as [| [k v] rest IH]; simpl; [lia |].
  intros H. apply NoDup_cons in H. destruct H as [Hk Hrest].
  rewrite filter_cons. simpl. case_decide; subst.
  - rewrite filter_key_absent by exact Hk. simpl. lia.
  - apply IH, Hrest.
Qed.

(** *** Every handler keeps the keys distinct *)

Create HintDb registry discriminated.

Lemma preserves_ret {A} (a : A) : preserves (M.ret a).
Proof. intros w H. exact H. Qed.

Lemma preserves_throw {A} (e : Exn) : preserves (@M.throw A e).
Proof. intros w H. exact H. Qed.

Lemma preserves_lift {A} (c : Completion A) : preserves (M.lift c).
Proof. intros w H. exact H. Qed.

Lemma preserves_get : preserves M.get.
Proof. intros w H. exact H. Qed.

Lemma preserves_call {A} (ev : Event) (outcome : list Event -> Completion A) :
  preserves (M.call ev outcome).
Proof. intros w H. exact H. Qed.

Lemma preserves_bind {A B} (m : M A) (k : A -> M B) :
  preserves m -> (forall a, preserves (k a)) -> preserves (M.bind m k).
Proof.
  intros Hm Hk w H. unfold M.bind. specialize (Hm w H).
  destruct (m w) as [[a | e] w']; simpl in *; [apply Hk, Hm | exact Hm].
Qed.

Lemma preserves_try_catch {A} (body : M A) (handler : Exn -> M A) :
  preserves body -> (forall e, preserves (handler e)) ->
  preserves (M.try_catch body handler).
Proof.
  intros Hb Hh w H. unfold M.try_catch. specialize (Hb w H).
  destruct (body w) as [[a | e] w']; simpl in *; [exact Hb | apply Hh, Hb].
Qed.

Lemma preserves_try_finally {A} (body : M A) (cleanup : M unit) :
  preserves body -> preserves cleanup -> preserves (M.try_finally body cleanup).
Proof.
  intros Hb Hc w H. unfold M.try_finally. specialize (Hb w H).
  destruct (body w) as [c w']; simpl in *. specialize (Hc w' Hb).
  destruct (cleanup w') as [[[] | e] w'']; simpl in *; exact Hc.
Qed.

Lemma preserves_for_each {A} (l : list A) (body : A -> M unit) :
  (forall x, preserves (body x)) -> preserves (M.for_each l body).
Proof.
  intros Hb. induction l as [| x l IH]; simpl.
  - apply preserves_ret.
  - apply preserves_bind; [apply Hb | intros _; exact IH].
Qed.

Lemma preserves_set_heap (f : list AudioQueue -> list AudioQueue) :
  preserves (M.modify (set_heap f)).
Proof. intros w H. exact H. Qed.

Lemma preserves_set_decoders (f : list bool -> list bool) :
  preserves (M.modify (set_decoders f)).
Proof. intros w H. exact H. Qed.

Lemma preserves_Map_set (key : string) (value : nat) :
  preserves (M.modify (set_audioQueues (fun entries => Map_set entries key value))).
Proof. intros w H. apply Map_set_NoDup, H. Qed.

Lemma preserves_Map_delete (key : string) :
  preserves (M.modify (set_audioQueues (fun entries => Map_delete entries key))).
Proof. intros w H. apply Map_delete_NoDup, H. Qed.

#[local] Hint Resolve preserves_ret preserves_throw preserves_lift preserves_get
  preserves_call preserves_set_heap preserves_set_decoders
  preserves_Map_set preserves_Map_delete : registry.

Ltac preserve :=
  repeat first
    [ progress intros
    | solve [auto with registry]
    | apply preserves_bind
    | apply preserves_try_catch
    | apply preserves_try_finally
    | apply preserves_for_each
    | match goal with
      | |- preserves (match ?x with _ => _ end) => destruct x
      end ].

Lemma preserves_transcribeAudio_loop (env : Env) (todo : nat) (i : Z) (filename : string) :
  preserves (transcribeAudio_loop env todo i filename).
Proof.
  revert i. induction todo as [| todo IH]; intros i; simpl.
  - apply preserves_ret.
  - unfold transcriptions_create, sleep. preserve.
Qed.

#[local] Hint Resolve preserves_transcribeAudio_loop : registry.

Lemma preserves_transcribeAudio (env : Env) (filename : string) :
  preserves (transcribeAudio env filename).
Proof.
  unfold transcribeAudio, stat. preserve.
Qed.

Lemma preserves_summarizeText (env : Env) (text : string) :
  preserves (summarizeText env text).
Proof. unfold summarizeText, chat_completions_create. preserve. Qed.

#[local] Hint Resolve preserves_transcribeAudio preserves_summarizeText : registry.

Lemma preserves_handleJoinCommand (env : Env) (message : Message) :
  preserves (handleJoinCommand env message).
Proof.
  unfold handleJoinCommand, reply, joinVoiceChannel, audioQueues_set_new, speaking_on.
  preserve.
Qed.

Lemma preserves_handleAudioStream
    (env : Env) (audioStream : AudioReceiveStream) (guildId : string) :
  preserves (handleAudioStream env audioStream guildId).
Proof.
  unfold handleAudioStream, audioQueues_get, new_OpusScript, for_await,
    for_await_items, decoder_delete.
  preserve.
  unfold handleChunk, decoder_decode, audioChunks_push. preserve.
Qed.

Lemma preserves_handleLeaveCommand (env : Env) (message : Message) :
  preserves (handleLeaveCommand env message).
Proof.
  unfold handleLeaveCommand, audioQueues_get, reply, deref, destroy, writeFile,
    channel_send, unlink_caught, audioQueues_delete.
  preserve.
Qed.

Lemma registry_ok_after (env : Env) (r : Request) (w : World) :
  registry_ok w -> registry_ok (after env r w).
Proof.
  intros H. unfold after. destruct r; simpl.
  - apply preserves_handleJoinCommand, H.
  - apply preserves_handleLeaveCommand, H.
  - apply preserves_handleAudioStream, H.
Qed.

Lemma registry_ok_run (env : Env) (rs : list Request) (w : World) :
  registry_ok w -> registry_ok (run env rs w).
Proof.
  revert w. induction rs as [| r rs IH]; intros w H; simpl; [exact H |].
  apply IH, registry_ok_after, H.
Qed.

(** C9. Whatever joins, leaves and speaking turns reach the bot, in any
    order and whatever the collaborators answer, the registry holds at most
    one entry per key; a second join for a key that is still active
    therefore adds no second entry. *)
Theorem registry_one_entry_per_key (env : Env) (rs : list Request) (key : string) :
  (entries_for key (audioQueues (run env rs initial)) <= 1)%nat.
Proof.
  apply entries_for_NoDup. apply (registry_ok_run env rs initial).
  unfold registry_ok. simpl. apply NoDup_nil_2.
Qed.

(** ** Stream ends and the decoder *)

Lemma handleChunk_normal (env : Env) (queue : nat) (d : Decoder) (item : StreamItem) (w : World) :
  exists w', handleChunk env queue d item w = (Normal tt, w')
             /\ decoders w' = decoders w.
Proof.
  destruct item as [chunk |]; unfold handleChunk, decoder_decode, audioChunks_push;
    step_m; [| eauto].
  destruct (decode_outcome env (trace w) d chunk) as [[pcm |] | e]; cbn; eauto.
  destruct (decide (0 < length pcm)%nat); cbn; eauto.
Qed.

Lemma for_await_items_normal
    (env : Env) (queue : nat) (d : Decoder) (items : list StreamItem) (w : World) :
  exists w', for_await_items items (handleChunk env queue d) w = (Normal tt, w')
             /\ decoders w' = decoders w.
Proof.
  revert w. unfold for_await_items.
  induction items as [| item items IH]; intros w; cbn [M.for_each].
  - exists w. split; reflexivity.
  - rewrite !bind_unfold. unfold M.call.
    destruct (handleChunk_normal env queue d item
                (set_trace (fun t => t ++ [EvNextChunk item]) w)) as (w1 & E1 & D1).
    rewrite E1.
    destruct (IH w1) as (w2 & E2 & D2).
    exists w2. split; [exact E2 | rewrite D2, D1; reflexivity].
Qed.

(** X9. The outer [catch] absorbs whatever the stream raises. *)
Lemma handleAudioStream_never_throws
    (env : Env) (audioStream : AudioReceiveStream) (guildId : string) (w : World) :
  fst (handleAudioStream env audioStream guildId w) = Normal tt.
Proof.
  unfold handleAudioStream, audioQueues_get. step_m.
  destruct (Map_get (audioQueues w) guildId) as [queue |]; [| reflexivity].
  unfold M.try_catch.
  match goal with |- context [match ?body with _ => _ end] =>
    destruct body as [[[] | e] w'] end; reflexivity.
Qed.

(** X10. A stream that ends on silence: the decoder is deleted. *)
Lemma handleAudioStream_end_of_stream
    (env : Env) (audioStream : AudioReceiveStream) (guildId : string)
    (queue : nat) (w : World) :
  Map_get (audioQueues w) guildId = Some queue ->
  new_OpusScript_outcome env (trace w) = Normal tt ->
  (forall t d, decoder_delete_outcome env t d = Normal tt) ->
  stream_error audioStream = None ->
  released (length (decoders w)) (snd (handleAudioStream env audioStream guildId w)).
Proof.
  intros Hq Hnew Hdel Hend.
  unfold handleAudioStream, audioQueues_get. step_m. rewrite Hq.
  unfold new_OpusScript. step_m. rewrite Hnew. cbn.
  unfold for_await. rewrite Hend. rewrite !bind_unfold.
  match goal with |- context [for_await_items ?items ?body ?w0] =>
    destruct (for_await_items_normal env queue (length (decoders w))
                (stream_items audioStream) w0) as (w1 & E1 & D1) end.
  rewrite E1. unfold decoder_delete. step_m. rewrite Hdel. cbn.
  unfold released. cbn. rewrite D1. cbn.
  apply list_lookup_insert_eq. rewrite length_app. simpl. lia.
Qed.

(** A stream that ends on an error: control leaves the [try] before
    [decoder.delete()], and the decoder stays live. *)
Lemma handleAudioStream_stream_error
    (env : Env) (audioStream : AudioReceiveStream) (guildId : string)
    (queue : nat) (e : Exn) (w : World) :
  Map_get (audioQueues w) guildId = Some queue ->
  new_OpusScript_outcome env (trace w) = Normal tt ->
  stream_error audioStream = Some e ->
  decoders (snd (handleAudioStream env audioStream guildId w)) = decoders w ++ [true].
Proof.
  intros Hq Hnew Herr.
  unfold handleAudioStream, audioQueues_get. step_m. rewrite Hq.
  unfold new_OpusScript. step_m. rewrite Hnew. cbn.
  unfold for_await. rewrite Herr. rewrite !bind_unfold.
  match goal with |- context [for_await_items ?items ?body ?w0] =>
    destruct (for_await_items_normal env queue (length (decoders w))
                (stream_items audioStream) w0) as (w1 & E1 & D1) end.
  rewrite E1. step_m. exact D1.
Qed.

(** C3, on the code: the speaking turn cut by a connection loss is handled
    without an exception leaving [handleAudioStream], but its decoder is
    never deleted, whereas the same turn ending on silence deletes it. *)
Theorem stream_error_leaves_decoder_live :
  fst (handleAudioStream env_ok turn_lost "g1" joined) = Normal tt
  /\ decoders (snd (handleAudioStream env_ok turn_lost "g1" joined)) = [true]
  /\ ~ released 0%nat (snd (handleAudioStream env_ok turn_lost "g1" joined))
  /\ ~ In (EvDecoderDelete 0%nat)
          (trace (snd (handleAudioStream env_ok turn_lost "g1" joined)))
  /\ released 0%nat (snd (handleAudioStream env_ok turn "g1" joined)).
Proof.
  split; [reflexivity |]. split; [reflexivity |].
  split; [unfold released; vm_compute; discriminate |].
  split; [| reflexivity].
  intros Hin. vm_compute in Hin.
  repeat (destruct Hin as [Hin | Hin]; [discriminate |]). exact Hin.
Qed.

(** ** transcribeAudio *)

(** One turn of the loop whose request fails before the last index: wait
    and go round again. *)
Lemma transcribeAudio_loop_retry
    (env : Env) (todo : nat) (i : Z) (filename : string) (e : Exn) (w : World) :
  transcription_outcome env (trace w) filename = Throw e ->
  i < maxRetries - 1 ->
  transcribeAudio_loop env (S todo) i filename w
  = transcribeAudio_loop env todo (i + 1) filename
      (set_trace (fun t => t ++ [EvTranscription filename; EvSetTimeout (2 ^ i * 1000)]) w).
Proof.
  intros He Hi. cbn [transcribeAudio_loop].
  rewrite bind_unfold. unfold transcriptions_create, sleep. step_m. rewrite He.
  destruct (decide (i < maxRetries - 1)); [| lia]. cbn.
  f_equal. apply World_eq; cbn; try reflexivity.
  rewrite <- app_assoc. reflexivity.
Qed.

(** One turn whose request fails at the last index: no wait. *)
Lemma transcribeAudio_loop_give_up
    (env : Env) (todo : nat) (i : Z) (filename : string) (e : Exn) (w : World) :
  transcription_outcome env (trace w) filename = Throw e ->
  ~ i < maxRetries - 1 ->
  transcribeAudio_loop env (S todo) i filename w
  = transcribeAudio_loop env todo (i + 1) filename
      (set_trace (fun t => t ++ [EvTranscription filename]) w).
Proof.
  intros He Hi. cbn [transcribeAudio_loop].
  rewrite bind_unfold. unfold transcriptions_create, sleep. step_m. rewrite He.
  destruct (decide (i < maxRetries - 1)); [lia |]. reflexivity.
Qed.

(** One turn whose request succeeds: its text is returned. *)
Lemma transcribeAudio_loop_return
    (env : Env) (todo : nat) (i : Z) (filename text : string) (w : World) :
  transcription_outcome env (trace w) filename = Normal text ->
  transcribeAudio_loop env (S todo) i filename w
  = (Normal text, set_trace (fun t => t ++ [EvTranscription filename]) w).
Proof.
  intros He. cbn [transcribeAudio_loop].
  rewrite bind_unfold. unfold transcriptions_create. step_m. rewrite He.
  reflexivity.
Qed.

(** X6. When the file is not empty and every request fails, [transcribeAudio]
    makes three requests, waits 1000 ms after the first and 2000 ms after
    the second, and returns its sentinel. *)
Lemma transcribeAudio_exhausted (env : Env) (filename : string) (size : Z) (w : World) :
  stat_outcome env (trace w) filename = Normal size ->
  size <> 0 ->
  (forall t, exists e, transcription_outcome env t filename = Throw e) ->
  transcribeAudio env filename w
  = (Normal "Failed to transcribe audio after multiple attempts"%string,
     set_trace (fun t => t ++ [EvStat filename;
                               EvTranscription filename; EvSetTimeout 1000;
                               EvTranscription filename; EvSetTimeout 2000;
                               EvTranscription filename]) w).
Proof.
  intros Hstat Hsize Hfail.
  unfold transcribeAudio, stat. step_m. rewrite Hstat. cbn.
  destruct (decide (size = 0)) as [-> | _]; [congruence |].
  change (Z.to_nat maxRetries) with 3%nat.
  match goal with |- context [transcribeAudio_loop env 3 0 filename ?w0] =>
    destruct (Hfail (trace w0)) as [e1 H1];
    rewrite (transcribeAudio_loop_retry env 2 0 filename e1 w0 H1)
      by (unfold maxRetries; lia) end.
  match goal with |- context [transcribeAudio_loop env 2 ?i filename ?w0] =>
    destruct (Hfail (trace w0)) as [e2 H2];
    rewrite (transcribeAudio_loop_retry env 1 i filename e2 w0 H2)
      by (unfold maxRetries; lia) end.
  match goal with |- context [transcribeAudio_loop env 1 ?i filename ?w0] =>
    destruct (Hfail (trace w0)) as [e3 H3];
    rewrite (transcribeAudio_loop_give_up env 0 i filename e3 w0 H3)
      by (unfold maxRetries; lia) end.
  cbn [transcribeAudio_loop]. step_m.
  f_equal. apply World_eq; cbn; try reflexivity.
  repeat rewrite <- app_assoc. reflexivity.
Qed.

(** X7. A third request that succeeds is still used: the budget is three. *)
Lemma transcribeAudio_third_attempt (env : Env) (filename text : string) (size : Z)
    (e1 e2 : Exn) (w : World) :
  stat_outcome env (trace w) filename = Normal size ->
  size <> 0 ->
  transcription_outcome env (trace w ++ [EvStat filename]) filename = Throw e1 ->
  transcription_outcome env
    (trace w ++ [EvStat filename; EvTranscription filename; EvSetTimeout 1000])
    filename = Throw e2 ->
  transcription_outcome env
    (trace w ++ [EvStat filename; EvTranscription filename; EvSetTimeout 1000;
                 EvTranscription filename; EvSetTimeout 2000])
    filename = Normal text ->
  fst (transcribeAudio env filename w) = Normal text.
Proof.
  intros Hstat Hsize H1 H2 H3.
  unfold transcribeAudio, stat. step_m. rewrite Hstat. cbn.
  destruct (decide (size = 0)) as [-> | _]; [congruence |].
  change (Z.to_nat maxRetries) with 3%nat.
  rewrite (transcribeAudio_loop_retry env 2 0 filename e1)
    by (try exact H1; unfold maxRetries; lia).
  rewrite (transcribeAudio_loop_retry env 1 (0 + 1) filename e2);
    [| cbn; repeat rewrite <- app_assoc; exact H2 | unfold maxRetries; lia].
  rewrite (transcribeAudio_loop_return env 0 (0 + 1 + 1) filename text);
    [reflexivity |].
  cbn. repeat rewrite <- app_assoc. exact H3.
Qed.

(** ** handleLeaveCommand *)

(** C2, on the code: with a recorded turn and a transcription service that
    fails every time, [transcribeAudio] makes exactly three requests spaced
    by 1000 ms and 2000 ms and returns its sentinel; the sentinel is not the
    string [handleLeaveCommand] compares with, so [summarizeText] runs on it
    and the channel receives a summary message, not the no-speech one. *)
Theorem failed_transcription_reaches_summarizeText :
  fst (transcribeAudio env_no_transcription recording_g1 recorded)
  = Normal "Failed to transcribe audio after multiple attempts"%string
  /\ trace (snd (handleLeaveCommand env_no_transcription from_lobby recorded))
     = trace recorded
       ++ [EvDestroy 7%nat; EvWriteFile recording_g1 recording_g1_data;
           EvStat recording_g1;
           EvTranscription recording_g1; EvSetTimeout 1000;
           EvTranscription recording_g1; EvSetTimeout 2000;
           EvTranscription recording_g1;
           EvChannelSend (memo +:+ " **Summary of the conversation:**" +:+ LF
                          +:+ "Text too short to summarize meaningfully");
           EvUnlink recording_g1;
           EvReply 1 "Left voice channel."]
  /\ ~ In (EvChannelSend "No clear speech detected in the recording.")
          (trace (snd (handleLeaveCommand env_no_transcription from_lobby recorded))).
Proof.
  split; [reflexivity |]. split; [reflexivity |].
  intros Hin. vm_compute in Hin.
  repeat (destruct Hin as [Hin | Hin]; [discriminate |]). exact Hin.
Qed.

(** C1, on the code: with a recorded turn and a disk that refuses the
    recording, [handleLeaveCommand] destroys the connection, fails to write,
    replies the failure, and returns with the registry entry still in place;
    when it is the transcription that fails, the entry is removed. *)
Theorem failed_write_keeps_registry_entry :
  Map_get (audioQueues recorded) "g1" = Some 0%nat
  /\ fst (handleLeaveCommand env_disk_full from_lobby recorded) = Normal tt
  /\ trace (snd (handleLeaveCommand env_disk_full from_lobby recorded))
     = trace recorded
       ++ [EvDestroy 7%nat; EvWriteFile recording_g1 recording_g1_data;
           EvReply 1 "Failed to process recording."]
  /\ Map_get (audioQueues (snd (handleLeaveCommand env_disk_full from_lobby recorded))) "g1"
     = Some 0%nat
  /\ Map_get (audioQueues (snd (handleLeaveCommand env_no_transcription from_lobby recorded))) "g1"
     = None.
Proof. repeat split. Qed.

(** ** What the handlers may change *)

Section Steps.
Context (R : World -> World -> Prop) `{!PreOrder R}.

Lemma steps_ret {A} (a : A) : steps R (M.ret a).
Proof. intros w. reflexivity. Qed.

Lemma steps_throw {A} (e : Exn) : steps R (@M.throw A e).
Proof. intros w. reflexivity. Qed.

Lemma steps_lift {A} (c : Completion A) : steps R (M.lift c).
Proof. intros w. reflexivity. Qed.

Lemma steps_get : steps R M.get.
Proof. intros w. reflexivity. Qed.

Lemma steps_bind {A B} (m : M A) (k : A -> M B) :
  steps R m -> (forall a, steps R (k a)) -> steps R (M.bind m k).
Proof.
  intros Hm Hk w. unfold M.bind. specialize (Hm w).
  destruct (m w) as [[a | e] w']; simpl in *; [| exact Hm].
  etransitivity; [exact Hm | apply Hk].
Qed.

Lemma steps_try_catch {A} (body : M A) (handler : Exn -> M A) :
  steps R body -> (forall e, steps R (handler e)) ->
  steps R (M.try_catch body handler).
Proof.
  intros Hb Hh w. unfold M.try_catch. specialize (Hb w).
  destruct (body w) as [[a | e] w']; simpl in *; [exact Hb |].
  etransitivity; [exact Hb | apply Hh].
Qed.

Lemma steps_try_finally {A} (body : M A) (cleanup : M unit) :
  steps R body -> steps R cleanup -> steps R (M.try_finally body cleanup).
Proof.
  intros Hb Hc w. unfold M.try_finally. specialize (Hb w).
  destruct (body w) as [c w']; simpl in *. specialize (Hc w').
  destruct (cleanup w') as [[[] | e] w'']; simpl in *;
    (etransitivity; [exact Hb | exact Hc]).
Qed.

Lemma steps_for_each {A} (l : list A) (body : A -> M unit) :
  (forall x, steps R (body x)) -> steps R (M.for_each l body).
Proof.
  intros Hb. induction l as [| x l IH]; simpl.
  - apply steps_ret.
  - apply steps_bind; [apply Hb | intros _; exact IH].
Qed.

Lemma steps_modify (f : World -> World) :
  (forall w, R w (f w)) -> steps R (M.modify f).
Proof. intros H w. apply H. Qed.

Lemma steps_call {A} (ev : Event) (outcome : list Event -> Completion A) :
  (forall w, R w (set_trace (fun t => t ++ [ev]) w)) -> steps R (M.call ev outcome).
Proof. intros H w. apply H. Qed.

End Steps.

Lemma steps_after (R : World -> World -> Prop) `{!PreOrder R} (env : Env) :
  (forall r, steps R (handle env r)) ->
  forall rs w, R w (run env rs w).
Proof.
  intros H rs. induction rs as [| r rs IH]; intros w; simpl; [reflexivity |].
  etransitivity; [apply (H r w) | apply IH].
Qed.

(** The handlers, for a relation that every logged call and every change of
    the decoder flags respects. *)
Section HandlerSteps.
Context (R : World -> World -> Prop) `{!PreOrder R}.
Hypothesis R_trace : forall ev w, R w (set_trace (fun t => t ++ [ev]) w).
Hypothesis R_decoders : forall f w, R w (set_decoders f w).
Variable env : Env.

Create HintDb handler_steps discriminated.

Ltac instance_goal :=
  match goal with |- PreOrder _ => solve [typeclasses eauto] end.

Ltac stepping :=
  repeat first
    [ instance_goal
    | match goal with |- forall _, _ => intro end
    | apply steps_ret
    | apply steps_throw
    | apply steps_lift
    | apply steps_get
    | assumption
    | solve [auto 1 with handler_steps nocore]
    | apply steps_call; intros; apply R_trace
    | apply steps_modify; intros; apply R_decoders
    | apply steps_bind
    | apply steps_try_catch
    | apply steps_try_finally
    | apply steps_for_each
    | match goal with
      | |- steps _ (match ?x with _ => _ end) => destruct x
      end ].

Lemma steps_transcribeAudio_loop (todo : nat) (i : Z) (filename : string) :
  steps R (transcribeAudio_loop env todo i filename).
Proof.
  revert i. induction todo as [| todo IH]; intros i; simpl.
  - stepping.
  - unfold transcriptions_create, sleep. stepping.
Qed.

#[local] Hint Resolve steps_transcribeAudio_loop : handler_steps.

Lemma steps_transcribeAudio (filename : string) : steps R (transcribeAudio env filename).
Proof. unfold transcribeAudio, stat. stepping. Qed.

Lemma steps_summarizeText (text : string) : steps R (summarizeText env text).
Proof. unfold summarizeText, chat_completions_create. stepping. Qed.

#[local] Hint Resolve steps_transcribeAudio steps_summarizeText : handler_steps.

(** What [handleLeaveCommand] does with the written file, inside its inner
    [try]. *)
Lemma steps_downstream (message : Message) (filename : string) :
  steps R
    (M.bind (transcribeAudio env filename)
       (fun transcription =>
          if truthy transcription
             && bool_decide (transcription <> "Failed to transcribe audio"%string)
          then
            M.bind (summarizeText env transcription)
              (fun summary =>
                 if channel_has_send message
                 then channel_send env (memo +:+ " **Summary of the conversation:**"
                                             +:+ LF +:+ summary)
                 else M.ret tt)
          else
            if channel_has_send message
            then channel_send env "No clear speech detected in the recording."
            else M.ret tt)).
Proof. unfold channel_send. stepping. Qed.

Lemma steps_handleChunk (queue : nat) (d : Decoder) (item : StreamItem) :
  (forall c w, (0 < length c)%nat ->
     R w (set_heap (alter (fun q => mkAudioQueue (connection q) (push (audioChunks q) c))
                          queue) w)) ->
  steps R (handleChunk env queue d item).
Proof.
  intros R_push. unfold handleChunk, decoder_decode, audioChunks_push, Buffer_from.
  stepping. apply steps_modify. intros w. apply R_push. assumption.
Qed.

Lemma steps_subscription (audioStream : AudioReceiveStream) (queue : nat) :
  (forall c w, (0 < length c)%nat ->
     R w (set_heap (alter (fun q => mkAudioQueue (connection q) (push (audioChunks q) c))
                          queue) w)) ->
  steps R (M.try_catch
             (M.bind (new_OpusScript env 48000 2)
                (fun decoder =>
                   M.bind (for_await audioStream (handleChunk env queue decoder))
                          (fun _ => decoder_delete env decoder)))
             (fun _ => M.ret tt)).
Proof.
  intros R_push. unfold new_OpusScript, for_await, for_await_items, decoder_delete.
  stepping. apply steps_handleChunk, R_push.
Qed.

Lemma steps_handleAudioStream (audioStream : AudioReceiveStream) (guildId : string) :
  (forall queue c w, (0 < length c)%nat ->
     R w (set_heap (alter (fun q => mkAudioQueue (connection q) (push (audioChunks q) c))
                          queue) w)) ->
  steps R (handleAudioStream env audioStream guildId).
Proof.
  intros R_push. unfold handleAudioStream, audioQueues_get. stepping.
  apply steps_handleChunk. intros c w' Hc. apply R_push, Hc.
Qed.

Lemma steps_handleJoinCommand (message : Message) :
  (forall voiceChannel c, member_voice_channel message = Some voiceChannel ->
     steps R (audioQueues_set_new (channel_guild_id voiceChannel) (mkAudioQueue c []))) ->
  steps R (handleJoinCommand env message).
Proof.
  intros R_new. unfold handleJoinCommand, reply, joinVoiceChannel, speaking_on.
  destruct (member_voice_channel message) as [voiceChannel |]; [| stepping].
  pose proof (fun c => R_new voiceChannel c eq_refl) as R_new'. stepping.
Qed.

Lemma steps_handleLeaveCommand (message : Message) :
  (forall guildId w, message_guild_id message = Some guildId ->
     R w (set_audioQueues (fun entries => Map_delete entries guildId) w)) ->
  steps R (handleLeaveCommand env message).
Proof.
  intros R_delete.
  unfold handleLeaveCommand, audioQueues_get, reply, deref, destroy, writeFile,
    channel_send, unlink_caught, audioQueues_delete.
  destruct (message_guild_id message) as [guildId |]; stepping.
  apply steps_modify; intros w; apply R_delete; reflexivity.
Qed.

End HandlerSteps.

(** *** [get] after [set] and [delete] *)

Lemma Map_get_set_eq {V} (entries : list (string * V)) (key : string) (value : V) :
  Map_get (Map_set entries key value) key = Some value.
Proof.
  induction entries as [| [k v] rest IH]; simpl.
  - case_decide; [reflexivity | congruence].
  - case_decide; subst; simpl; case_decide; congruence.
Qed.

Lemma Map_get_set_ne {V} (entries : list (string * V)) (key k : string) (value : V) :
  k <> key -> Map_get (Map_set entries key value) k = Map_get entries k.
Proof.
  intros Hne. induction entries as [| [k' v] rest IH]; simpl.
  - case_decide; [congruence | reflexivity].
  - case_decide; subst; simpl; repeat case_decide; try congruence.
Qed.

Lemma Map_get_delete_ne {V} (entries : list (string * V)) (key k : string) :
  k <> key -> Map_get (Map_delete entries key) k = Map_get entries k.
Proof.
  intros Hne. induction entries as [| [k' v] rest IH]; simpl; [reflexivity |].
  case_decide; subst; simpl; repeat case_decide; try congruence.
Qed.

(** *** The relations are preorders *)

#[local] Instance trace_grows_preorder : PreOrder trace_grows.
Proof.
  split.
  - intros w. unfold trace_grows. reflexivity.
  - intros w1 w2 w3 H12 H23. unfold trace_grows in *. etransitivity; eassumption.
Qed.

#[local] Instance same_registry_preorder : PreOrder same_registry.
Proof.
  split.
  - intros w. reflexivity.
  - intros w1 w2 w3 H12 H23. unfold same_registry in *. congruence.
Qed.

#[local] Instance same_heap_preorder : PreOrder same_heap.
Proof.
  split.
  - intros w. reflexivity.
  - intros w1 w2 w3 H12 H23. unfold same_heap in *. congruence.
Qed.

#[local] Instance same_entry_preorder (key : string) : PreOrder (same_entry key).
Proof.
  split.
  - intros w. reflexivity.
  - intros w1 w2 w3 H12 H23. unfold same_entry in *. congruence.
Qed.

#[local] Instance other_queues_preorder (queue : nat) : PreOrder (other_queues queue).
Proof.
  split.
  - intros w. split; reflexivity.
  - intros w1 w2 w3 [L12 H12] [L23 H23]. split; [congruence |].
    intros r Hr. rewrite H23, H12 by exact Hr. reflexivity.
Qed.

#[local] Instance heap_grows_preorder : PreOrder heap_grows.
Proof.
  split.
  - intros w r q Hq. exists q. repeat split; [exact Hq | reflexivity].
  - intros w1 w2 w3 H12 H23 r q Hq.
    destruct (H12 r q Hq) as (q2 & Hq2 & Hc2 & Hp2).
    destruct (H23 r q2 Hq2) as (q3 & Hq3 & Hc3 & Hp3).
    exists q3. repeat split; [exact Hq3 | congruence | etransitivity; eassumption].
Qed.

#[local] Instance keeping_preorder (P : World -> Prop) : PreOrder (keeping P).
Proof.
  split.
  - intros w H. exact H.
  - intros w1 w2 w3 H12 H23 H. apply H23, H12, H.
Qed.

(** *** Queue objects are append-only *)

Lemma heap_grows_trace (ev : Event) (w : World) :
  heap_grows w (set_trace (fun t => t ++ [ev]) w).
Proof. intros r q Hq. exists q. repeat split; [exact Hq | reflexivity]. Qed.

Lemma heap_grows_decoders (f : list bool -> list bool) (w : World) :
  heap_grows w (set_decoders f w).
Proof. intros r q Hq. exists q. repeat split; [exact Hq | reflexivity]. Qed.

Lemma heap_grows_registry (f : list (string * nat) -> list (string * nat)) (w : World) :
  heap_grows w (set_audioQueues f w).
Proof. intros r q Hq. exists q. repeat split; [exact Hq | reflexivity]. Qed.

Lemma heap_grows_push (queue : nat) (c : list byte) (w : World) :
  heap_grows w
    (set_heap (alter (fun q => mkAudioQueue (connection q) (push (audioChunks q) c)) queue) w).
Proof.
  intros r q Hq. cbn.
  destruct (decide (r = queue)) as [-> | Hne].
  - eexists. rewrite list_lookup_alter_eq, Hq. cbn.
    repeat split. unfold push. apply prefix_app_r. reflexivity.
  - exists q. rewrite list_lookup_alter_ne by congruence.
    repeat split; [exact Hq | reflexivity].
Qed.

Lemma heap_grows_new (key : string) (queue : AudioQueue) :
  steps heap_grows (audioQueues_set_new key queue).
Proof.
  intros w r q Hq. unfold audioQueues_set_new. step_m.
  exists q. rewrite lookup_app_l by (eapply lookup_lt_Some, Hq).
  repeat split; [exact Hq | reflexivity].
Qed.

Lemma heap_grows_handle (env : Env) (r : Request) : steps heap_grows (handle env r).
Proof.
  destruct r as [message | message | audioStream guildId]; simpl.
  - apply steps_handleJoinCommand;
      [exact _ | apply heap_grows_trace | intros; apply heap_grows_new].
  - apply steps_handleLeaveCommand;
      [exact _ | apply heap_grows_trace | intros; apply heap_grows_registry].
  - apply steps_handleAudioStream;
      [exact _ | apply heap_grows_trace | apply heap_grows_decoders
      | intros; apply heap_grows_push].
Qed.

(** X15. A queue object that exists keeps its connection and its chunks
    through any sequence of requests: later chunks come behind the ones it
    holds, none is removed, replaced or moved. *)
Theorem recorded_chunks_stay
    (env : Env) (rs : list Request) (w : World) (r : nat) (q : AudioQueue) :
  heap w !! r = Some q ->
  exists q' : AudioQueue,
    heap (run env rs w) !! r = Some q'
    /\ connection q' = connection q
    /\ audioChunks q `prefix_of` audioChunks q'.
Proof.
  intros Hq.
  exact (steps_after heap_grows env (heap_grows_handle env) rs w r q Hq).
Qed.

Lemma recorded_chunks_stay_witness :
  exists q' : AudioQueue,
    heap (run env_ok [Speaking turn "g1"; Leave from_lobby; Join from_lobby] recorded)
      !! 0%nat = Some q'
    /\ connection q' = 7%nat
    /\ [[x01; x01]; [x02; x03; x02; x03]] `prefix_of` audioChunks q'.
Proof.
  apply (recorded_chunks_stay env_ok
           [Speaking turn "g1"; Leave from_lobby; Join from_lobby] recorded 0%nat
           (mkAudioQueue 7%nat [[x01; x01]; [x02; x03; x02; x03]])).
  reflexivity.
Defined.

(** *** No empty chunk is stored *)

Lemma chunks_nonempty_push (queue : nat) (c : list byte) (w : World) :
  (0 < length c)%nat ->
  keeping chunks_nonempty w
    (set_heap (alter (fun q => mkAudioQueue (connection q) (push (audioChunks q) c)) queue) w).
Proof.
  intros Hc H r q c' Hq Hin. cbn in Hq.
  destruct (decide (r = queue)) as [-> | Hne].
  - rewrite list_lookup_alter_eq in Hq.
    destruct (heap w !! queue) as [q0 |] eqn:E; [| discriminate].
    cbn in Hq. injection Hq as <-. cbn in Hin. unfold push in Hin.
    apply elem_of_app in Hin. destruct Hin as [Hin | Hin].
    + exact (H queue q0 c' E Hin).
    + apply list_elem_of_singleton in Hin. subst. exact Hc.
  - rewrite list_lookup_alter_ne in Hq by congruence. exact (H r q c' Hq Hin).
Qed.

Lemma chunks_nonempty_new (key : string) (c : Connection) :
  steps (keeping chunks_nonempty) (audioQueues_set_new key (mkAudioQueue c [])).
Proof.
  intros w H r q c' Hq Hin. unfold audioQueues_set_new in Hq. cbn in Hq.
  apply lookup_app_Some in Hq. destruct Hq as [Hq | [_ Hq]].
  - exact (H r q c' Hq Hin).
  - apply list_lookup_singleton_Some in Hq. destruct Hq as [_ <-].
    cbn in Hin. inversion Hin.
Qed.

Lemma chunks_nonempty_handle (env : Env) (r : Request) :
  steps (keeping chunks_nonempty) (handle env r).
Proof.
  destruct r as [message | message | audioStream guildId]; simpl.
  - apply steps_handleJoinCommand;
      [exact _ | intros ev w H; exact H | intros; apply chunks_nonempty_new].
  - apply steps_handleLeaveCommand; [exact _ | intros ev w H; exact H |].
    intros guildId w _ H. exact H.
  - apply steps_handleAudioStream;
      [exact _ | intros ev w H; exact H | intros f w H; exact H
      | intros; apply chunks_nonempty_push; assumption].
Qed.

(** X14. Whatever reaches the bot and whatever the decoder returns, no queue
    ever holds an empty chunk: [handleAudioStream] stores a decoded block
    only when its length is positive. *)
Theorem stored_chunks_are_nonempty
    (env : Env) (rs : list Request) (r : nat) (q : AudioQueue) (c : list byte) :
  heap (run env rs initial) !! r = Some q ->
  c ∈ audioChunks q ->
  (0 < length c)%nat.
Proof.
  intros Hq Hin.
  apply (steps_after (keeping chunks_nonempty) env (chunks_nonempty_handle env)
           rs initial) with r q; [| exact Hq | exact Hin].
  intros r' q' c' Hq'. inversion Hq'.
Qed.

Lemma stored_chunks_are_nonempty_witness : (0 < length [x01; x01])%nat.
Proof.
  apply (stored_chunks_are_nonempty env_ok [Join from_lobby; Speaking turn "g1"]
           0%nat (mkAudioQueue 7%nat [[x01; x01]; [x02; x03; x02; x03]]) [x01; x01]).
  - reflexivity.
  - apply list_elem_of_here.
Defined.

(** *** Guilds do not interfere *)

Lemma same_entry_new (key k : string) (queue : AudioQueue) :
  k <> key -> steps (same_entry k) (audioQueues_set_new key queue).
Proof.
  intros Hne w. unfold same_entry, audioQueues_set_new. cbn.
  apply Map_get_set_ne, Hne.
Qed.

Lemma same_entry_handle (env : Env) (r : Request) (k : string) :
  concerns r <> Some k -> steps (same_entry k) (handle env r).
Proof.
  intros Hk. destruct r as [message | message | audioStream guildId]; simpl in *.
  - apply steps_handleJoinCommand; [exact _ | reflexivity |].
    intros voiceChannel c Hvc. apply same_entry_new.
    rewrite Hvc in Hk. cbn in Hk. congruence.
  - apply steps_handleLeaveCommand; [exact _ | reflexivity |].
    intros guildId w Hg. unfold same_entry. cbn.
    apply Map_get_delete_ne. congruence.
  - apply steps_handleAudioStream; [exact _ | reflexivity | reflexivity | reflexivity].
Qed.

(** X16. Requests about other guilds leave a guild's registry entry alone:
    through any sequence of joins, leaves and speaking turns none of which
    is about key [k], the registry finds for [k] what it found before. *)
Theorem other_guilds_do_not_interfere
    (env : Env) (rs : list Request) (k : string) (w : World) :
  Forall (fun r => concerns r <> Some k) rs ->
  Map_get (audioQueues (run env rs w)) k = Map_get (audioQueues w) k.
Proof.
  revert w. induction rs as [| r rs IH]; intros w Hrs; simpl; [reflexivity |].
  apply Forall_cons in Hrs. destruct Hrs as [Hr Hrs].
  rewrite IH by exact Hrs. apply (same_entry_handle env r k Hr w).
Qed.

Lemma other_guilds_do_not_interfere_witness :
  Map_get (audioQueues (run env_ok [Speaking turn "g1"; Leave from_lobby] recorded)) "g2"
  = Map_get (audioQueues recorded) "g2".
Proof.
  apply (other_guilds_do_not_interfere env_ok [Speaking turn "g1"; Leave from_lobby]
           "g2" recorded).
  repeat constructor; discriminate.
Defined.

(** *** A speaking turn writes to its own queue only *)

Lemma other_queues_push (queue : nat) (c : list byte) (w : World) :
  other_queues queue w
    (set_heap (alter (fun q => mkAudioQueue (connection q) (push (audioChunks q) c)) queue) w).
Proof.
  split; cbn.
  - apply length_alter.
  - intros r Hr. apply list_lookup_alter_ne. congruence.
Qed.

(** X11. [handleAudioStream] never changes the registry, never adds or
    removes a queue object, and changes no queue object other than the one
    registered for its guild. *)
Theorem handleAudioStream_writes_own_queue_only
    (env : Env) (audioStream : AudioReceiveStream) (guildId : string) (w : World) :
  audioQueues (snd (handleAudioStream env audioStream guildId w)) = audioQueues w
  /\ length (heap (snd (handleAudioStream env audioStream guildId w))) = length (heap w)
  /\ forall r : nat,
       Map_get (audioQueues w) guildId <> Some r ->
       heap (snd (handleAudioStream env audioStream guildId w)) !! r = heap w !! r.
Proof.
  split.
  { apply (steps_handleAudioStream same_registry); first [exact _ | reflexivity]. }
  unfold handleAudioStream, audioQueues_get. rewrite bind_unfold. cbn.
  destruct (Map_get (audioQueues w) guildId) as [queue |] eqn:E.
  - destruct (steps_subscription (other_queues queue)
                ltac:(intros; split; reflexivity) ltac:(intros; split; reflexivity)
                env audioStream queue
                ltac:(intros; apply other_queues_push) w) as [Hlen Hother].
    split; [exact Hlen |]. intros r Hr. apply Hother. congruence.
  - split; [reflexivity | intros; reflexivity].
Qed.

(** ** handleJoinCommand, beyond the missing channel *)

(** A join that gets its connection. *)
Lemma join_registers
    (env : Env) (message : Message) (voiceChannel : VoiceBasedChannel)
    (c : Connection) (w : World) :
  member_voice_channel message = Some voiceChannel ->
  joinVoiceChannel_outcome env (trace w) (channel_id voiceChannel)
                           (channel_guild_id voiceChannel) = Normal c ->
  Map_get (audioQueues (snd (handleJoinCommand env message w))) (channel_guild_id voiceChannel)
  = Some (length (heap w))
  /\ heap (snd (handleJoinCommand env message w)) = heap w ++ [mkAudioQueue c []]
  /\ (trace w ++ [EvJoinVoiceChannel (channel_id voiceChannel) (channel_guild_id voiceChannel);
                  EvSpeakingOn c (channel_guild_id voiceChannel);
                  EvReply (message_id message) "Joined voice channel and started recording."])
     `prefix_of` trace (snd (handleJoinCommand env message w)).
Proof.
  intros Hvc Hjoin. unfold handleJoinCommand. rewrite Hvc.
  unfold joinVoiceChannel, audioQueues_set_new, speaking_on, reply. step_m.
  rewrite Hjoin. cbn.
  match goal with |- context [reply_outcome env ?t ?text] =>
    destruct (reply_outcome env t text) as [[] | e] end; cbn;
    (split; [apply Map_get_set_eq |]); (split; [reflexivity |]);
    repeat rewrite <- app_assoc; cbn [app].
  - reflexivity.
  - apply prefix_app, prefix_cons, prefix_cons, prefix_cons, prefix_nil.
Qed.

(** X17. When [joinVoiceChannel] returns a connection, the registry maps the
    channel's guild to a new queue object holding that connection and no
    chunk, whatever was registered for the guild before and whether or not
    the confirmation can be sent. *)
Theorem handleJoinCommand_registers_empty_queue
    (env : Env) (message : Message) (voiceChannel : VoiceBasedChannel)
    (c : Connection) (w : World) :
  member_voice_channel message = Some voiceChannel ->
  joinVoiceChannel_outcome env (trace w) (channel_id voiceChannel)
                           (channel_guild_id voiceChannel) = Normal c ->
  Map_get (audioQueues (snd (handleJoinCommand env message w))) (channel_guild_id voiceChannel)
  = Some (length (heap w))
  /\ heap (snd (handleJoinCommand env message w)) = heap w ++ [mkAudioQueue c []]
  /\ (trace w ++ [EvJoinVoiceChannel (channel_id voiceChannel) (channel_guild_id voiceChannel);
                  EvSpeakingOn c (channel_guild_id voiceChannel);
                  EvReply (message_id message) "Joined voice channel and started recording."])
     `prefix_of` trace (snd (handleJoinCommand env message w)).
Proof. exact (join_registers env message voiceChannel c w). Qed.

Lemma handleJoinCommand_registers_empty_queue_witness :
  Map_get (audioQueues (snd (handleJoinCommand env_ok from_lobby recorded))) "g1"
  = Some (length (heap recorded))
  /\ heap (snd (handleJoinCommand env_ok from_lobby recorded))
     = heap recorded ++ [mkAudioQueue 7%nat []]
  /\ (trace recorded ++ [EvJoinVoiceChannel "lobby" "g1"; EvSpeakingOn 7%nat "g1";
                         EvReply 1 "Joined voice channel and started recording."])
     `prefix_of` trace (snd (handleJoinCommand env_ok from_lobby recorded)).
Proof.
  apply (handleJoinCommand_registers_empty_queue env_ok from_lobby lobby 7%nat recorded);
    reflexivity.
Defined.

(** X18. When [joinVoiceChannel] throws, nothing is registered and no queue
    object is created; the requester is told that the join failed. *)
Theorem handleJoinCommand_failed_join
    (env : Env) (message : Message) (voiceChannel : VoiceBasedChannel)
    (e : Exn) (w : World) :
  member_voice_channel message = Some voiceChannel ->
  joinVoiceChannel_outcome env (trace w) (channel_id voiceChannel)
                           (channel_guild_id voiceChannel) = Throw e ->
  audioQueues (snd (handleJoinCommand env message w)) = audioQueues w
  /\ heap (snd (handleJoinCommand env message w)) = heap w
  /\ trace (snd (handleJoinCommand env message w))
     = trace w ++ [EvJoinVoiceChannel (channel_id voiceChannel) (channel_guild_id voiceChannel);
                   EvReply (message_id message) "Failed to join voice channel."].
Proof.
  intros Hvc Hjoin. unfold handleJoinCommand. rewrite Hvc.
  unfold joinVoiceChannel, audioQueues_set_new, speaking_on, reply. step_m.
  rewrite Hjoin. cbn. repeat split. rewrite <- app_assoc. reflexivity.
Qed.

Lemma handleJoinCommand_failed_join_witness :
  audioQueues (snd (handleJoinCommand env_no_voice from_lobby recorded)) = audioQueues recorded
  /\ heap (snd (handleJoinCommand env_no_voice from_lobby recorded)) = heap recorded
  /\ trace (snd (handleJoinCommand env_no_voice from_lobby recorded))
     = trace recorded ++ [EvJoinVoiceChannel "lobby" "g1";
                          EvReply 1 "Failed to join voice channel."].
Proof.
  apply (handleJoinCommand_failed_join env_no_voice from_lobby lobby
           (Failure "cannot connect") recorded); reflexivity.
Defined.

(** ** handleLeaveCommand, case by case *)

(** X19. A leave for a guild with no session only replies that the bot is in
    no voice channel; registry, queue objects and decoders are untouched
    and no collaborator other than the reply is called. *)
Theorem handleLeaveCommand_without_session
    (env : Env) (message : Message) (guildId : string) (w : World) :
  message_guild_id message = Some guildId ->
  guildId <> EmptyString ->
  Map_get (audioQueues w) guildId = None ->
  handleLeaveCommand env message w
  = (reply_outcome env (trace w) "Not currently in a voice channel.",
     set_trace (fun t => t ++ [EvReply (message_id message)
                                 "Not currently in a voice channel."]) w).
Proof.
  intros Hg Hne Hq. unfold handleLeaveCommand. rewrite Hg.
  unfold truthy. rewrite bool_decide_eq_true_2 by exact Hne. cbn [negb].
  unfold audioQueues_get. rewrite !bind_unfold. cbn. rewrite Hq. reflexivity.
Qed.

Lemma handleLeaveCommand_without_session_witness :
  handleLeaveCommand env_ok from_g2 recorded
  = (Normal tt,
     set_trace (fun t => t ++ [EvReply 3 "Not currently in a voice channel."]) recorded).
Proof.
  apply (handleLeaveCommand_without_session env_ok from_g2 "g2" recorded).
  - reflexivity.
  - discriminate.
  - reflexivity.
Defined.

(** A leave on an empty queue. *)
Lemma leave_nothing_recorded
    (env : Env) (message : Message) (guildId : string) (queue : nat)
    (q : AudioQueue) (w : World) :
  message_guild_id message = Some guildId ->
  guildId <> EmptyString ->
  Map_get (audioQueues w) guildId = Some queue ->
  heap w !! queue = Some q ->
  audioChunks q = [] ->
  destroy_outcome env (trace w) (connection q) = Normal tt ->
  reply_outcome env (trace w ++ [EvDestroy (connection q)]) "No audio was recorded."
  = Normal tt ->
  audioQueues (snd (handleLeaveCommand env message w)) = Map_delete (audioQueues w) guildId
  /\ exists tail : list Event,
       trace (snd (handleLeaveCommand env message w))
       = trace w ++ [EvDestroy (connection q);
                     EvReply (message_id message) "No audio was recorded.";
                     EvReply (message_id message) "Left voice channel."] ++ tail
       /\ (tail = []
           \/ tail = [EvReply (message_id message) "Failed to process recording."]).
Proof.
  intros Hg Hne Hq Hh Hempty Hdestroy Hreply. unfold handleLeaveCommand. rewrite Hg.
  unfold truthy. rewrite bool_decide_eq_true_2 by exact Hne. cbn [negb].
  unfold audioQueues_get, deref, destroy, reply, audioQueues_delete.
  rewrite bind_unfold. cbn -[lookup]. rewrite Hq.
  unfold M.try_catch. rewrite ?bind_unfold. cbn -[lookup]. rewrite Hh. cbn -[lookup].
  rewrite Hdestroy. rewrite ?bind_unfold. cbn -[lookup]. rewrite Hempty.
  cbn -[lookup]. destruct (decide (0 < 0)%nat) as [Hlt | _]; [lia |].
  unfold M.call. cbn -[lookup]. rewrite Hreply. cbn -[lookup].
  match goal with |- context [reply_outcome env ?t "Left voice channel."] =>
    destruct (reply_outcome env t "Left voice channel.") as [[] | e] end; cbn;
    (split; [reflexivity |]).
  - exists []. split; [| left; reflexivity].
    repeat rewrite <- app_assoc. reflexivity.
  - eexists. split; [| right; reflexivity].
    repeat rewrite <- app_assoc. reflexivity.
Qed.

(** X20. A leave for a session that holds no chunk destroys the connection,
    replies that no audio was recorded, removes the entry and announces the
    departure; no file is written and neither transcription nor summary is
    requested. *)
Theorem handleLeaveCommand_nothing_recorded
    (env : Env) (message : Message) (guildId : string) (queue : nat)
    (q : AudioQueue) (w : World) :
  message_guild_id message = Some guildId ->
  guildId <> EmptyString ->
  Map_get (audioQueues w) guildId = Some queue ->
  heap w !! queue = Some q ->
  audioChunks q = [] ->
  destroy_outcome env (trace w) (connection q) = Normal tt ->
  reply_outcome env (trace w ++ [EvDestroy (connection q)]) "No audio was recorded."
  = Normal tt ->
  audioQueues (snd (handleLeaveCommand env message w)) = Map_delete (audioQueues w) guildId
  /\ exists tail : list Event,
       trace (snd (handleLeaveCommand env message w))
       = trace w ++ [EvDestroy (connection q);
                     EvReply (message_id message) "No audio was recorded.";
                     EvReply (message_id message) "Left voice channel."] ++ tail
       /\ (tail = []
           \/ tail = [EvReply (message_id message) "Failed to process recording."]).
Proof. exact (leave_nothing_recorded env message guildId queue q w). Qed.

Lemma handleLeaveCommand_nothing_recorded_witness :
  audioQueues (snd (handleLeaveCommand env_ok from_lobby joined))
  = Map_delete (audioQueues joined) "g1"
  /\ exists tail : list Event,
       trace (snd (handleLeaveCommand env_ok from_lobby joined))
       = trace joined ++ [EvDestroy 7%nat; EvReply 1 "No audio was recorded.";
                          EvReply 1 "Left voice channel."] ++ tail
       /\ (tail = [] \/ tail = [EvReply 1 "Failed to process recording."]).
Proof.
  apply (handleLeaveCommand_nothing_recorded env_ok from_lobby "g1" 0%nat
           (mkAudioQueue 7%nat []) joined); try reflexivity.
  discriminate.
Defined.

Lemma bind_Normal_inv {A B} (m : M A) (k : A -> M B) (w w' : World) (b : B) :
  M.bind m k w = (Normal b, w') ->
  exists (a : A) (w1 : World), m w = (Normal a, w1) /\ k a w1 = (Normal b, w').
Proof.
  unfold M.bind. destruct (m w) as [[a | e] w1]; intros H; [| discriminate].
  exists a, w1. split; [reflexivity | exact H].
Qed.

(** X21. After a leave for an active guild, either the registry no longer
    has an entry for the guild, or the last thing the bot did was to reply
    that processing the recording failed. *)
Theorem handleLeaveCommand_removes_or_reports
    (env : Env) (message : Message) (guildId : string) (queue : nat) (w : World) :
  registry_ok w ->
  message_guild_id message = Some guildId ->
  guildId <> EmptyString ->
  Map_get (audioQueues w) guildId = Some queue ->
  Map_get (audioQueues (snd (handleLeaveCommand env message w))) guildId = None
  \/ last (trace (snd (handleLeaveCommand env message w)))
     = Some (EvReply (message_id message) "Failed to process recording.").
Proof.
  intros Hok Hg Hne Hq. unfold handleLeaveCommand. rewrite Hg.
  unfold truthy. rewrite bool_decide_eq_true_2 by exact Hne. cbn [negb].
  rewrite bind_unfold. unfold audioQueues_get at 1. cbn -[lookup]. rewrite Hq.
  unfold M.try_catch.
  match goal with |- context [let (c, w') := ?body w in _] =>
    destruct (body w) as [[[] | e] w1] eqn:E end.
  - left. cbn.
    apply bind_Normal_inv in E. destruct E as (q0 & w2 & E0 & E).
    unfold deref in E0. cbn in E0. injection E0 as _ <-.
    apply bind_Normal_inv in E. destruct E as ([] & w3 & E1 & E).
    assert (Hok3 : registry_ok w3).
    { pose proof (preserves_call (EvDestroy (connection q0))
                    (fun t => destroy_outcome env t (connection q0)) w Hok) as H.
      unfold destroy in E1. rewrite E1 in H. exact H. }
    apply bind_Normal_inv in E. destruct E as (q1 & w4 & E2 & E).
    unfold deref in E2. cbn in E2. injection E2 as _ <-.
    apply bind_Normal_inv in E. destruct E as ([] & w5 & E3 & E).
    assert (Hok5 : registry_ok w5).
    { match type of E3 with ?m w3 = _ =>
        assert (Hm : preserves m)
          by (unfold reply, writeFile, channel_send, unlink_caught; preserve);
        pose proof (Hm w3 Hok3) as H end.
      rewrite E3 in H. exact H. }
    apply bind_Normal_inv in E. destruct E as ([] & w6 & E4 & E).
    unfold audioQueues_delete in E4. cbn in E4. injection E4 as <-.
    unfold reply, M.call in E. injection E as _ <-. cbn.
    apply Map_get_delete, Hok5.
  - right. unfold reply, M.call. cbn. apply last_snoc.
Qed.

Lemma handleLeaveCommand_removes_or_reports_witness :
  Map_get (audioQueues (snd (handleLeaveCommand env_disk_full from_lobby recorded))) "g1"
  = None
  \/ last (trace (snd (handleLeaveCommand env_disk_full from_lobby recorded)))
     = Some (EvReply 1 "Failed to process recording.").
Proof.
  apply (handleLeaveCommand_removes_or_reports env_disk_full from_lobby "g1" 0%nat recorded).
  - unfold registry_ok. vm_compute. apply NoDup_singleton.
  - reflexivity.
  - discriminate.
  - reflexivity.
Defined.

(** The [finally] block: whatever the body does, the file is unlinked and
    the body's completion stands. *)
Lemma try_finally_unlink {A} (env : Env) (body : M A) (filename : string) (w : World) :
  M.try_finally body (unlink_caught env filename) w
  = (fst (body w), set_trace (fun t => t ++ [EvUnlink filename]) (snd (body w))).
Proof.
  unfold M.try_finally, unlink_caught, M.try_catch, M.call, M.ret.
  destruct (body w) as [c w1]. cbn.
  destruct (unlink_outcome env (trace w1) filename) as [[] | e]; reflexivity.
Qed.

(** X22. Once the recording has been written, the file is unlinked before
    [handleLeaveCommand] returns, whatever transcription, summary and
    sending do. *)
Theorem handleLeaveCommand_unlinks_what_it_wrote
    (env : Env) (message : Message) (guildId : string) (queue : nat)
    (q : AudioQueue) (wavBuffer : list byte) (w : World) :
  message_guild_id message = Some guildId ->
  guildId <> EmptyString ->
  Map_get (audioQueues w) guildId = Some queue ->
  heap w !! queue = Some q ->
  (0 < length (audioChunks q))%nat ->
  destroy_outcome env (trace w) (connection q) = Normal tt ->
  createWavBuffer (drain (audioChunks q)) = Normal wavBuffer ->
  writeFile_outcome env (trace w ++ [EvDestroy (connection q)])
                    ("recording_" +:+ guildId +:+ ".wav") wavBuffer = Normal tt ->
  In (EvUnlink ("recording_" +:+ guildId +:+ ".wav"))
     (trace (snd (handleLeaveCommand env message w))).
Proof.
  intros Hg Hne Hq Hh Hlen Hdestroy Hwav Hwrite. unfold handleLeaveCommand. rewrite Hg.
  unfold truthy at 1. rewrite bool_decide_eq_true_2 by exact Hne. cbn [negb].
  unfold audioQueues_get, deref, destroy, reply, audioQueues_delete, writeFile.
  rewrite bind_unfold. cbn -[lookup createWavBuffer]. rewrite Hq.
  unfold M.try_catch. rewrite ?bind_unfold. cbn -[lookup createWavBuffer].
  rewrite Hh. cbn -[lookup createWavBuffer]. rewrite Hdestroy.
  rewrite ?bind_unfold. cbn -[lookup createWavBuffer].
  destruct (decide (0 < length (audioChunks q))%nat) as [_ | Hn]; [| lia].
  rewrite ?bind_unfold. unfold M.lift at 1. rewrite Hwav.
  rewrite ?bind_unfold. unfold M.call at 1. cbn -[lookup createWavBuffer M.try_finally].
  rewrite Hwrite. rewrite try_finally_unlink.
  match goal with |- context [fst (?body ?w0)] =>
    destruct (body w0) as [[[] | e] w1] end;
    cbn -[lookup createWavBuffer]; unfold M.call; cbn.
  - match goal with |- context [reply_outcome env ?t ?text] =>
      destruct (reply_outcome env t text) as [[] | e] end; cbn;
      repeat rewrite in_app_iff; cbn; tauto.
  - repeat rewrite in_app_iff; cbn; tauto.
Qed.

Lemma handleLeaveCommand_unlinks_what_it_wrote_witness :
  In (EvUnlink ("recording_" +:+ "g1" +:+ ".wav"))
     (trace (snd (handleLeaveCommand env_no_transcription from_lobby recorded))).
Proof.
  apply (handleLeaveCommand_unlinks_what_it_wrote env_no_transcription from_lobby "g1"
           0%nat (mkAudioQueue 7%nat [[x01; x01]; [x02; x03; x02; x03]])
           recording_g1_data recorded); try reflexivity.
  - discriminate.
  - simpl. lia.
Defined.

(** ** summarizeText *)

Lemma String_split_length (sep : ascii) (text : string) :
  length (String_split sep text) = S (String_count sep text).
Proof.
  induction text as [| c rest IH]; simpl; [reflexivity |].
  destruct (decide (c = sep)); simpl.
  - rewrite IH. reflexivity.
  - destruct (String_split sep rest) as [| piece pieces]; simpl in *; [discriminate | exact IH].
Qed.

(** X3. [summarizeText] counts pieces between single spaces, not words: a
    text with fewer than 29 space characters is answered with the
    too-short sentinel and no request is made; from 29 space characters on,
    exactly one chat-completion request is made, with the text as it is. *)
Theorem summarizeText_threshold (env : Env) (text : string) (w : World) :
  if decide (String_count " " text < 29)%nat
  then summarizeText env text w
       = (Normal "Text too short to summarize meaningfully"%string, w)
  else trace (snd (summarizeText env text w)) = trace w ++ [EvChatCompletion text].
Proof.
  unfold summarizeText. rewrite String_split_length.
  destruct (decide (String_count " " text < 29)%nat) as [Hlt | Hge].
  - destruct (decide (S (String_count " " text) < 30)%nat); [reflexivity | lia].
  - destruct (decide (S (String_count " " text) < 30)%nat); [lia |].
    unfold chat_completions_create. step_m.
    destruct (chat_completion_outcome env (trace w) text) as [[content |] | e]; cbn;
      try reflexivity.
    destruct (truthy content); reflexivity.
Qed.

(** X4. [summarizeText] never throws and never returns the empty string,
    whatever the completion service answers. *)
Theorem summarizeText_returns_text (env : Env) (text : string) (w : World) :
  exists summary : string,
    fst (summarizeText env text w) = Normal summary /\ summary <> EmptyString.
Proof.
  unfold summarizeText.
  destruct (decide (length (String_split " " text) < 30)%nat).
  - eexists. split; [reflexivity | discriminate].
  - unfold chat_completions_create. step_m.
    destruct (chat_completion_outcome env (trace w) text) as [[content |] | e]; cbn;
      try (eexists; split; [reflexivity | discriminate]).
    destruct (truthy content) eqn:E; cbn.
    + exists content. split; [reflexivity |].
      unfold truthy in E. apply bool_decide_eq_true_1 in E. exact E.
    + eexists. split; [reflexivity | discriminate].
Qed.

(** ** transcribeAudio, in every environment *)

(** X5. [transcribeAudio] never throws and changes nothing but the trace,
    to which it adds the size check followed by at most three requests,
    with a wait of 1000 ms after a first failure and 2000 ms after a second. *)
Theorem transcribeAudio_bounded (env : Env) (filename : string) (w : World) :
  exists (text : string) (added : list Event),
    transcribeAudio env filename w
    = (Normal text, set_trace (fun t => t ++ added) w)
    /\ In added (transcribeAudio_traces filename).
Proof.
  unfold transcribeAudio, stat. step_m.
  destruct (stat_outcome env (trace w) filename) as [size | e0]; cbn.
  2: { eexists _, [EvStat filename]. split; [reflexivity | left; reflexivity]. }
  destruct (decide (size = 0)) as [-> | Hsize]; cbn.
  { eexists _, [EvStat filename]. split; [reflexivity | left; reflexivity]. }
  change (Z.to_nat maxRetries) with 3%nat.
  match goal with |- context [transcribeAudio_loop env 3 0 filename ?w0] =>
    set (w1 := w0) end.
  destruct (transcription_outcome env (trace w1) filename) as [text1 | e1] eqn:E1.
  { rewrite (transcribeAudio_loop_return env 2 0 filename text1 w1 E1).
    exists text1, [EvStat filename; EvTranscription filename].
    split; [| right; left; reflexivity].
    f_equal. apply World_eq; cbn; try reflexivity.
    rewrite <- app_assoc. reflexivity. }
  rewrite (transcribeAudio_loop_retry env 2 0 filename e1 w1 E1)
    by (unfold maxRetries; lia).
  match goal with |- context [transcribeAudio_loop env 2 ?i filename ?w0] =>
    set (w2 := w0) end.
  destruct (transcription_outcome env (trace w2) filename) as [text2 | e2] eqn:E2.
  { rewrite (transcribeAudio_loop_return env 1 _ filename text2 w2 E2).
    exists text2, [EvStat filename; EvTranscription filename; EvSetTimeout 1000;
                   EvTranscription filename].
    split; [| right; right; left; reflexivity].
    f_equal. apply World_eq; cbn; try reflexivity.
    repeat rewrite <- app_assoc. reflexivity. }
  rewrite (transcribeAudio_loop_retry env 1 _ filename e2 w2 E2)
    by (unfold maxRetries; lia).
  match goal with |- context [transcribeAudio_loop env 1 ?i filename ?w0] =>
    set (w3 := w0) end.
  destruct (transcription_outcome env (trace w3) filename) as [text3 | e3] eqn:E3.
  { rewrite (transcribeAudio_loop_return env 0 _ filename text3 w3 E3).
    exists text3, [EvStat filename; EvTranscription filename; EvSetTimeout 1000;
                   EvTranscription filename; EvSetTimeout 2000; EvTranscription filename].
    split; [| right; right; right; left; reflexivity].
    f_equal. apply World_eq; cbn; try reflexivity.
    repeat rewrite <- app_assoc. reflexivity. }
  rewrite (transcribeAudio_loop_give_up env 0 _ filename e3 w3 E3)
    by (unfold maxRetries; lia).
  cbn [transcribeAudio_loop]. step_m.
  eexists _, [EvStat filename; EvTranscription filename; EvSetTimeout 1000;
              EvTranscription filename; EvSetTimeout 2000; EvTranscription filename].
  split; [| right; right; right; left; reflexivity].
  f_equal. apply World_eq; cbn; try reflexivity.
  repeat rewrite <- app_assoc. reflexivity.
Qed.

(** X8. For a file of size zero [transcribeAudio] returns its no-content
    sentinel and requests no transcription. *)
Theorem transcribeAudio_empty_file (env : Env) (filename : string) (w : World) :
  stat_outcome env (trace w) filename = Normal 0 ->
  transcribeAudio env filename w
  = (Normal "No audio content recorded"%string,
     set_trace (fun t => t ++ [EvStat filename]) w).
Proof.
  intros Hstat. unfold transcribeAudio, stat. step_m. rewrite Hstat. reflexivity.
Qed.

Lemma transcribeAudio_empty_file_witness :
  transcribeAudio env_empty_file recording_g1 recorded
  = (Normal "No audio content recorded"%string,
     set_trace (fun t => t ++ [EvStat recording_g1]) recorded).
Proof.
  apply (transcribeAudio_empty_file env_empty_file recording_g1 recorded). reflexivity.
Defined.

Lemma transcribeAudio_exhausted_witness :
  transcribeAudio env_no_transcription recording_g1 recorded
  = (Normal "Failed to transcribe audio after multiple attempts"%string,
     set_trace (fun t => t ++ [EvStat recording_g1;
                               EvTranscription recording_g1; EvSetTimeout 1000;
                               EvTranscription recording_g1; EvSetTimeout 2000;
                               EvTranscription recording_g1]) recorded).
Proof.
  apply (transcribeAudio_exhausted env_no_transcription recording_g1 48 recorded).
  - reflexivity.
  - lia.
  - intros t. exists (Failure "503"). reflexivity.
Defined.

Lemma transcribeAudio_third_attempt_witness :
  fst (transcribeAudio env_flaky recording_g1 recorded) = Normal "hello"%string.
Proof.
  apply (transcribeAudio_third_attempt env_flaky recording_g1 "hello" 48
           (Failure "503") (Failure "503") recorded).
  - reflexivity.
  - lia.
  - reflexivity.
  - reflexivity.
  - reflexivity.
Defined.

(** ** createWavBuffer, at and around the bound *)

(** X1. [createWavBuffer] throws exactly when 36 + payload length exceeds
    the unsigned 32-bit range, and the exception is the range error of the
    first size field. *)
Theorem createWavBuffer_throws_iff (payload : list byte) :
  createWavBuffer payload = Throw (RangeError "ERR_OUT_OF_RANGE")
  <-> 4294967295 < 36 + Z.of_nat (length payload).
Proof.
  split.
  - intros H. destruct (decide (4294967295 < 36 + Z.of_nat (length payload)));
      [assumption |].
    rewrite createWavBuffer_header in H by lia. discriminate.
  - apply createWavBuffer_too_long.
Qed.

(** X2. Whenever [createWavBuffer] returns, the container is 44 bytes
    longer than the payload and the payload is what follows the first 44
    bytes, unchanged; so two payloads with the same container are equal. *)
Theorem createWavBuffer_payload_follows_header (payload container : list byte) :
  createWavBuffer payload = Normal container ->
  length container = (44 + length payload)%nat
  /\ drop 44 container = payload
  /\ forall payload' : list byte,
       createWavBuffer payload' = Normal container -> payload' = payload.
Proof.
  intros H.
  assert (Hdrop : forall p c, createWavBuffer p = Normal c ->
                    length c = (44 + length p)%nat /\ drop 44 c = p).
  { intros p c Hc.
    destruct (decide (4294967295 < 36 + Z.of_nat (length p))) as [Hbig | Hok].
    - rewrite createWavBuffer_too_long in Hc by exact Hbig. discriminate.
    - rewrite createWavBuffer_header in Hc by lia.
      assert (c = wav_header_layout (Z.of_nat (length p)) ++ p) as -> by congruence.
      split.
      + rewrite length_app, wav_header_layout_length. reflexivity.
      + apply drop_app_length'. reflexivity. }
  destruct (Hdrop payload container H) as [Hlen Hd].
  split; [exact Hlen |]. split; [exact Hd |].
  intros payload' H'. destruct (Hdrop payload' container H') as [_ Hd'].
  congruence.
Qed.

Lemma createWavBuffer_payload_follows_header_witness :
  length recording_g1_data = (44 + length [x01; x01; x02; x03; x02; x03])%nat
  /\ drop 44 recording_g1_data = [x01; x01; x02; x03; x02; x03]
  /\ forall payload' : list byte,
       createWavBuffer payload' = Normal recording_g1_data ->
       payload' = [x01; x01; x02; x03; x02; x03].
Proof.
  apply (createWavBuffer_payload_follows_header
           [x01; x01; x02; x03; x02; x03] recording_g1_data).
  reflexivity.
Defined.

(** ** handleAudioStream, frame after frame *)

Lemma for_await_items_decoded
    (env : Env) (queue : nat) (d : Decoder) (pcm : list byte -> list byte)
    (items : list StreamItem) :
  (forall t d' chunk, decode_outcome env t d' chunk = Normal (Some (pcm chunk))) ->
  (forall chunk, (0 < length (pcm chunk))%nat) ->
  forall (q : AudioQueue) (w : World),
    heap w !! queue = Some q ->
    exists w' : World,
      for_await_items items (handleChunk env queue d) w = (Normal tt, w')
      /\ heap w' !! queue
         = Some (mkAudioQueue (connection q)
                              (audioChunks q ++ map pcm (stream_buffers items))).
Proof.
  intros Hdecode Hpcm. unfold for_await_items.
  induction items as [| item items IH]; intros q w Hq; cbn [M.for_each].
  - exists w. split; [reflexivity |]. cbn. rewrite app_nil_r. destruct q; exact Hq.
  - rewrite !bind_unfold. unfold M.call.
    destruct item as [chunk |].
    + unfold handleChunk, decoder_decode, audioChunks_push, Buffer_from, M.try_catch.
      rewrite bind_unfold. unfold M.call. rewrite Hdecode.
      destruct (decide (0 < length (pcm chunk))%nat) as [_ | Hn];
        [| exfalso; apply Hn, Hpcm].
      cbn -[lookup].
      match goal with |- context [M.for_each items ?body ?w0] =>
        destruct (IH (mkAudioQueue (connection q) (push (audioChunks q) (pcm chunk))) w0)
          as (w' & E & Hh) end.
      { cbn -[lookup]. rewrite list_lookup_alter_eq, Hq. reflexivity. }
      exists w'. split; [exact E |]. rewrite Hh. cbn. unfold push.
      rewrite <- app_assoc. reflexivity.
    + unfold handleChunk. cbn -[lookup].
      match goal with |- context [M.for_each items ?body ?w0] =>
        destruct (IH q w0) as (w' & E & Hh) end.
      { exact Hq. }
      exists w'. split; [exact E | exact Hh].
Qed.

(** A speaking turn whose frames are all decoded. *)
Lemma turn_appends
    (env : Env) (audioStream : AudioReceiveStream) (guildId : string) (queue : nat)
    (q : AudioQueue) (pcm : list byte -> list byte) (w : World) :
  Map_get (audioQueues w) guildId = Some queue ->
  heap w !! queue = Some q ->
  new_OpusScript_outcome env (trace w) = Normal tt ->
  (forall t d chunk, decode_outcome env t d chunk = Normal (Some (pcm chunk))) ->
  (forall chunk, (0 < length (pcm chunk))%nat) ->
  heap (snd (handleAudioStream env audioStream guildId w)) !! queue
  = Some (mkAudioQueue (connection q)
            (audioChunks q ++ map pcm (stream_buffers (stream_items audioStream)))).
Proof.
  intros Hq Hh Hnew Hdecode Hpcm.
  unfold handleAudioStream, audioQueues_get. rewrite bind_unfold. cbn -[lookup].
  rewrite Hq. unfold M.try_catch, new_OpusScript.
  rewrite ?bind_unfold. unfold M.call. rewrite Hnew. cbn -[lookup for_await].
  unfold for_await. rewrite ?bind_unfold.
  match goal with |- context [for_await_items ?items ?body ?w0] =>
    destruct (for_await_items_decoded env queue (length (decoders w)) pcm items
                Hdecode Hpcm q w0 Hh) as (w1 & E & Hh1) end.
  rewrite E.
  destruct (stream_error audioStream) as [e |]; cbn -[lookup].
  - exact Hh1.
  - unfold decoder_delete. rewrite ?bind_unfold. unfold M.call.
    destruct (decoder_delete_outcome env (trace w1) (length (decoders w)))
      as [[] | e]; cbn -[lookup]; exact Hh1.
Qed.

(** X12. When the decoder answers every frame with a non-empty block, a
    speaking turn adds to its session's queue the decoded block of each
    [Buffer] chunk, in stream order, behind what the queue held, whether
    the stream then ends on silence or on an error. *)
Theorem handleAudioStream_appends_in_stream_order
    (env : Env) (audioStream : AudioReceiveStream) (guildId : string) (queue : nat)
    (q : AudioQueue) (pcm : list byte -> list byte) (w : World) :
  Map_get (audioQueues w) guildId = Some queue ->
  heap w !! queue = Some q ->
  new_OpusScript_outcome env (trace w) = Normal tt ->
  (forall t d chunk, decode_outcome env t d chunk = Normal (Some (pcm chunk))) ->
  (forall chunk, (0 < length (pcm chunk))%nat) ->
  heap (snd (handleAudioStream env audioStream guildId w)) !! queue
  = Some (mkAudioQueue (connection q)
            (audioChunks q ++ map pcm (stream_buffers (stream_items audioStream)))).
Proof. exact (turn_appends env audioStream guildId queue q pcm w). Qed.

Lemma handleAudioStream_appends_in_stream_order_witness :
  heap (snd (handleAudioStream env_echo turn_lost "g1" recorded)) !! 0%nat
  = Some (mkAudioQueue 7%nat
            ([[x01; x01]; [x02; x03; x02; x03]]
             ++ map (cons x00) (stream_buffers (stream_items turn_lost)))).
Proof.
  apply (handleAudioStream_appends_in_stream_order env_echo turn_lost "g1" 0%nat
           (mkAudioQueue 7%nat [[x01; x01]; [x02; x03; x02; x03]]) (cons x00) recorded).
  - reflexivity.
  - reflexivity.
  - reflexivity.
  - intros t d chunk. reflexivity.
  - intros chunk. simpl. lia.
Defined.

Lemma handleAudioStream_end_of_stream_witness :
  released (length (decoders joined)) (snd (handleAudioStream env_ok turn "g1" joined)).
Proof.
  apply (handleAudioStream_end_of_stream env_ok turn "g1" 0%nat joined).
  - reflexivity.
  - reflexivity.
  - intros t d. reflexivity.
  - reflexivity.
Defined.


(** ** handleMessage *)

Lemma split_spaces_from_nonempty (in_run : bool) (text : string) :
  split_spaces_from in_run text <> [].
Proof.
  revert in_run. induction text as [| c rest IH]; intros in_run; simpl; [discriminate |].
  destruct (decide (c = " "%char)).
  - destruct in_run; [apply IH | discriminate].
  - destruct (split_spaces_from false rest); discriminate.
Qed.

(** The first piece is what stands before the first space. *)
Lemma head_split_spaces (command rest : string) :
  String_count " " command = 0%nat ->
  rest = EmptyString \/ (exists rest', rest = String " " rest') ->
  head (String_split_spaces (command +:+ rest)) = Some command.
Proof.
  unfold String_split_spaces. intros Hcount Hrest.
  induction command as [| c command IH]; simpl in *.
  - destruct Hrest as [-> | [rest' ->]]; simpl; [reflexivity |].
    destruct (decide (" "%char = " "%char)); [reflexivity | congruence].
  - destruct (decide (c = " "%char)) as [-> | Hc]; [discriminate |].
    specialize (IH Hcount).
    destruct (split_spaces_from false (command +:+ rest)) as [| piece pieces];
      simpl in *; [discriminate |].
    injection IH as ->. reflexivity.
Qed.

(** X25. [handleMessage] looks at the first piece of the text behind the
    prefix only: when a message from a non-bot author starts with the
    prefix and the trimmed rest is a space-free word followed by nothing or
    by a space and anything, the handler run is the one the lower-cased
    word names, [join] or [leave], and none for any other word. *)
Theorem handleMessage_dispatches_on_first_word
    (js : StringMethods) (env : Env) (config : BotConfig.t) (message : MessageCreate)
    (word rest : string) :
  author_bot message = false ->
  String.prefix (BotConfig.prefix config) (content message) = true ->
  trim js (String_slice (String.length (BotConfig.prefix config)) (content message))
  = word +:+ rest ->
  String_count " " word = 0%nat ->
  rest = EmptyString \/ (exists rest', rest = String " " rest') ->
  handleMessage js env config message
  = if decide (toLowerCase js word = "join"%string)
    then handleJoinCommand env (received message)
    else if decide (toLowerCase js word = "leave"%string)
         then handleLeaveCommand env (received message)
         else M.ret tt.
Proof.
  intros Hbot Hprefix Htrim Hword Hrest. unfold handleMessage.
  rewrite Hbot, Hprefix, Htrim. cbn [negb orb].
  rewrite (head_split_spaces word rest Hword Hrest). cbn [fmap option_fmap option_map].
  repeat case_decide; try reflexivity; congruence.
Qed.

Lemma handleMessage_dispatches_on_first_word_witness :
  handleMessage already_trimmed_lower env_ok (botConfig "secret")
                (mkMessageCreate "!leave  now please" false from_lobby)
  = handleLeaveCommand env_ok from_lobby.
Proof.
  apply (handleMessage_dispatches_on_first_word already_trimmed_lower env_ok
           (botConfig "secret") (mkMessageCreate "!leave  now please" false from_lobby)
           "leave" "  now please").
  - reflexivity.
  - reflexivity.
  - reflexivity.
  - reflexivity.
  - right. eexists. reflexivity.
Defined.

(** ** handleLeaveCommand: what is written *)

Lemma trace_grows_call (ev : Event) (w : World) :
  trace_grows w (set_trace (fun t => t ++ [ev]) w).
Proof. unfold trace_grows. cbn. apply prefix_app_r. reflexivity. Qed.

Lemma trace_grows_In (ev : Event) (w w' : World) :
  trace_grows w w' -> In ev (trace w) -> In ev (trace w').
Proof.
  intros [k Hk] Hin. rewrite Hk. apply in_app_iff. left. exact Hin.
Qed.

(** A leave on a queue that holds chunks. *)
Lemma leave_writes_chunks
    (env : Env) (message : Message) (guildId : string) (queue : nat)
    (q : AudioQueue) (w : World) :
  message_guild_id message = Some guildId ->
  guildId <> EmptyString ->
  Map_get (audioQueues w) guildId = Some queue ->
  heap w !! queue = Some q ->
  (0 < length (audioChunks q))%nat ->
  destroy_outcome env (trace w) (connection q) = Normal tt ->
  36 + Z.of_nat (length (concat (audioChunks q))) <= 4294967295 ->
  In (EvWriteFile ("recording_" +:+ guildId +:+ ".wav")
        (wav_header_layout (Z.of_nat (length (concat (audioChunks q))))
         ++ concat (audioChunks q)))
     (trace (snd (handleLeaveCommand env message w))).
Proof.
  intros Hg Hne Hq Hh Hlen Hdestroy Hbound. unfold handleLeaveCommand. rewrite Hg.
  unfold truthy at 1. rewrite bool_decide_eq_true_2 by exact Hne. cbn [negb].
  unfold audioQueues_get, deref, destroy, reply, audioQueues_delete, writeFile.
  rewrite bind_unfold. cbn -[lookup createWavBuffer]. rewrite Hq.
  unfold M.try_catch. rewrite ?bind_unfold. cbn -[lookup createWavBuffer].
  rewrite Hh. cbn -[lookup createWavBuffer]. rewrite Hdestroy.
  rewrite ?bind_unfold. cbn -[lookup createWavBuffer].
  destruct (decide (0 < length (audioChunks q))%nat) as [_ | Hn]; [| lia].
  rewrite ?bind_unfold. unfold M.lift at 1. unfold drain, Buffer_concat.
  rewrite (createWavBuffer_header _ Hbound).
  rewrite ?bind_unfold. unfold M.call at 1. cbn -[lookup M.try_finally].
  match goal with |- context [writeFile_outcome env ?t ?f ?d] =>
    destruct (writeFile_outcome env t f d) as [[] | e] end.
  - rewrite try_finally_unlink.
    match goal with |- context [fst (?body ?w0)] =>
      pose proof (steps_downstream trace_grows trace_grows_call env message
                    ("recording_" +:+ guildId +:+ ".wav") w0 : trace_grows w0 (snd (body w0)))
        as Hgrow;
      destruct (body w0) as [[[] | e] w1] end;
      cbn -[lookup] in Hgrow;
      (assert (Hin : In (EvWriteFile ("recording_" +:+ guildId +:+ ".wav")
                          (wav_header_layout (Z.of_nat (length (concat (audioChunks q))))
                           ++ concat (audioChunks q))) (trace w1))
        by (apply (trace_grows_In _ _ _ Hgrow); cbn; apply in_app_iff; right; left;
            reflexivity));
      cbn -[lookup]; unfold M.call; cbn.
    + match goal with |- context [reply_outcome env ?t ?text] =>
        destruct (reply_outcome env t text) as [[] | e] end; cbn;
        repeat rewrite in_app_iff; tauto.
    + repeat rewrite in_app_iff; tauto.
  - cbn. repeat rewrite in_app_iff. cbn. tauto.
Qed.

(** X23. A leave for a session that holds chunks, once the connection is
    destroyed, writes to [recording_<guild>.wav] the 44-byte header for the
    total length followed by the session's chunks in the order they were
    pushed, provided the total fits the 32-bit size field. *)
Theorem handleLeaveCommand_writes_the_chunks
    (env : Env) (message : Message) (guildId : string) (queue : nat)
    (q : AudioQueue) (w : World) :
  message_guild_id message = Some guildId ->
  guildId <> EmptyString ->
  Map_get (audioQueues w) guildId = Some queue ->
  heap w !! queue = Some q ->
  (0 < length (audioChunks q))%nat ->
  destroy_outcome env (trace w) (connection q) = Normal tt ->
  36 + Z.of_nat (length (concat (audioChunks q))) <= 4294967295 ->
  In (EvWriteFile ("recording_" +:+ guildId +:+ ".wav")
        (wav_header_layout (Z.of_nat (length (concat (audioChunks q))))
         ++ concat (audioChunks q)))
     (trace (snd (handleLeaveCommand env message w))).
Proof. exact (leave_writes_chunks env message guildId queue q w). Qed.

Lemma handleLeaveCommand_writes_the_chunks_witness :
  In (EvWriteFile ("recording_" +:+ "g1" +:+ ".wav")
        (wav_header_layout
           (Z.of_nat (length (concat [[x01; x01]; [x02; x03; x02; x03]])))
         ++ concat [[x01; x01]; [x02; x03; x02; x03]]))
     (trace (snd (handleLeaveCommand env_ok from_lobby recorded))).
Proof.
  apply (handleLeaveCommand_writes_the_chunks env_ok from_lobby "g1" 0%nat
           (mkAudioQueue 7%nat [[x01; x01]; [x02; x03; x02; x03]]) recorded);
    try reflexivity.
  - discriminate.
  - simpl. lia.
  - simpl. lia.
Defined.

(** ** A leave right after a join *)

(** X24. A leave that directly follows a successful join of the same guild
    finds an empty queue, whatever had been recorded for the guild before
    the join: it destroys the new connection, replies that no audio was
    recorded and writes no file. *)
Theorem leave_after_join_finds_nothing
    (env : Env) (message : Message) (voiceChannel : VoiceBasedChannel)
    (c : Connection) (w : World) :
  member_voice_channel message = Some voiceChannel ->
  message_guild_id message = Some (channel_guild_id voiceChannel) ->
  channel_guild_id voiceChannel <> EmptyString ->
  joinVoiceChannel_outcome env (trace w) (channel_id voiceChannel)
                           (channel_guild_id voiceChannel) = Normal c ->
  destroy_outcome env (trace (snd (handleJoinCommand env message w))) c = Normal tt ->
  reply_outcome env (trace (snd (handleJoinCommand env message w)) ++ [EvDestroy c])
                "No audio was recorded." = Normal tt ->
  exists tail : list Event,
    trace (snd (handleLeaveCommand env message (snd (handleJoinCommand env message w))))
    = trace (snd (handleJoinCommand env message w))
      ++ [EvDestroy c;
          EvReply (message_id message) "No audio was recorded.";
          EvReply (message_id message) "Left voice channel."] ++ tail
    /\ (tail = []
        \/ tail = [EvReply (message_id message) "Failed to process recording."]).
Proof.
  intros Hvc Hg Hne Hjoin Hdestroy Hreply.
  destruct (join_registers env message voiceChannel c w Hvc Hjoin) as (Hget & Hheap & _).
  destruct (leave_nothing_recorded env message
              (channel_guild_id voiceChannel) (length (heap w)) (mkAudioQueue c [])
              (snd (handleJoinCommand env message w)) Hg Hne Hget) as (_ & H).
  - rewrite Hheap. rewrite lookup_app_r by lia.
    replace (length (heap w) - length (heap w))%nat with 0%nat by lia. reflexivity.
  - reflexivity.
  - exact Hdestroy.
  - exact Hreply.
  - exact H.
Qed.

Lemma leave_after_join_finds_nothing_witness :
  exists tail : list Event,
    trace (snd (handleLeaveCommand env_ok from_lobby
                  (snd (handleJoinCommand env_ok from_lobby recorded))))
    = trace (snd (handleJoinCommand env_ok from_lobby recorded))
      ++ [EvDestroy 7%nat; EvReply 1 "No audio was recorded.";
          EvReply 1 "Left voice channel."] ++ tail
    /\ (tail = [] \/ tail = [EvReply 1 "Failed to process recording."]).
Proof.
  apply (leave_after_join_finds_nothing env_ok from_lobby lobby 7%nat recorded);
    try reflexivity.
  discriminate.
Defined.

(** ** A decoder that cannot be built *)

(** X13. When [new OpusScript] throws, the speaking turn is dropped without
    an exception: no chunk is taken from the stream, nothing is decoded or
    pushed, and no decoder is left behind. *)
Theorem handleAudioStream_without_decoder
    (env : Env) (audioStream : AudioReceiveStream) (guildId : string)
    (queue : nat) (e : Exn) (w : World) :
  Map_get (audioQueues w) guildId = Some queue ->
  new_OpusScript_outcome env (trace w) = Throw e ->
  handleAudioStream env audioStream guildId w
  = (Normal tt, set_trace (fun t => t ++ [EvNewOpusScript 48000 2]) w).
Proof.
  intros Hq Hnew. unfold handleAudioStream, audioQueues_get.
  rewrite bind_unfold. cbn. rewrite Hq.
  unfold M.try_catch, new_OpusScript. rewrite ?bind_unfold. unfold M.call.
  rewrite Hnew. reflexivity.
Qed.

Lemma handleAudioStream_without_decoder_witness :
  handleAudioStream env_no_decoder turn "g1" joined
  = (Normal tt, set_trace (fun t => t ++ [EvNewOpusScript 48000 2]) joined).
Proof.
  apply (handleAudioStream_without_decoder env_no_decoder turn "g1" 0%nat
           (Failure "no codec") joined); reflexivity.
Defined.

(** ** A corrupt frame inside a subscription *)

(** The loop over the rest of a stream: it ends normally, queue objects
    only gain chunks, the trace only grows, and an empty rest changes
    nothing. *)
Lemma for_await_items_rest
    (env : Env) (queue : nat) (d : Decoder) (items : list StreamItem) (w : World) :
  exists w' : World,
    for_await_items items (handleChunk env queue d) w = (Normal tt, w')
    /\ heap_grows w w'
    /\ trace_grows w w'
    /\ (items = [] -> w' = w).
Proof.
  destruct (for_await_items_normal env queue d items w) as (w' & E & _).
  exists w'. split; [exact E |].
  assert (Hheap : steps heap_grows (for_await_items items (handleChunk env queue d))).
  { unfold for_await_items. apply steps_for_each; [exact _ |]. intros item.
    apply steps_bind; [exact _ | |].
    - apply steps_call. intros w0. apply heap_grows_trace.
    - intros _. apply steps_handleChunk; [exact _ | apply heap_grows_trace |].
      intros c w0 _. apply heap_grows_push. }
  assert (Htrace : steps trace_grows (for_await_items items (handleChunk env queue d))).
  { unfold for_await_items. apply steps_for_each; [exact _ |]. intros item.
    apply steps_bind; [exact _ | |].
    - apply steps_call. intros w0. apply trace_grows_call.
    - intros _. apply steps_handleChunk; [exact _ | apply trace_grows_call |].
      intros c w0 _. unfold trace_grows. reflexivity. }
  specialize (Hheap w). specialize (Htrace w). rewrite E in Hheap, Htrace.
  split; [exact Hheap |]. split; [exact Htrace |].
  intros ->. unfold for_await_items in E. cbn [M.for_each] in E. unfold M.ret in E.
  congruence.
Qed.

(** The loop over two lists of frames is the loop over the first, then the
    loop over the second. *)
Lemma for_each_app {A} (l1 l2 : list A) (body : A -> M unit) (w : World) :
  M.for_each (l1 ++ l2) body w
  = match M.for_each l1 body w with
    | (Normal _, w') => M.for_each l2 body w'
    | (Throw e, w') => (Throw e, w')
    end.
Proof.
  revert w. induction l1 as [| x l1 IH]; intros w; cbn [app M.for_each].
  - reflexivity.
  - rewrite !bind_unfold. destruct (body x w) as [[[] | e] w1]; [apply IH | reflexivity].
Qed.

(** A corrupt frame and the frame behind it, in the middle of the loop. *)
Lemma loop_skips_corrupt_frame
    (env : Env) (queue : nat) (d : Decoder) (qp : AudioQueue)
    (bad good pcm : list byte) (e : Exn) (rest : list StreamItem) (wp : World) :
  heap wp !! queue = Some qp ->
  decode_outcome env (trace wp ++ [EvNextChunk (IsBuffer bad)]) d bad = Throw e ->
  decode_outcome env (trace wp ++ [EvNextChunk (IsBuffer bad); EvDecode d bad;
                                   EvNextChunk (IsBuffer good)]) d good
  = Normal (Some pcm) ->
  (0 < length pcm)%nat ->
  exists (w2 : World) (later : list (list byte)),
    for_await_items (IsBuffer bad :: IsBuffer good :: rest) (handleChunk env queue d) wp
    = (Normal tt, w2)
    /\ (trace wp ++ [EvNextChunk (IsBuffer bad); EvDecode d bad;
                     EvNextChunk (IsBuffer good); EvDecode d good])
       `prefix_of` trace w2
    /\ heap w2 !! queue
       = Some (mkAudioQueue (connection qp) (audioChunks qp ++ [pcm] ++ later))
    /\ (rest = [] -> later = []).
Proof.
  intros Hh Hbad Hgood Hpcm.
  rewrite (for_await_items_bad_then_good env queue d bad good pcm e rest wp Hbad Hgood Hpcm).
  destruct (for_await_items_rest env queue d rest
              (after_bad_then_good queue d bad good pcm wp))
    as (w2 & E & Hheap & Htrace & Hnil).
  destruct (Hheap queue (mkAudioQueue (connection qp) (audioChunks qp ++ [pcm])))
    as (q2 & Hq2 & Hc2 & [later Hlater]).
  { cbn -[lookup]. rewrite list_lookup_alter_eq, Hh. reflexivity. }
  exists w2, later. split; [exact E |]. split; [exact Htrace |]. split.
  - rewrite Hq2. destruct q2 as [c2 chunks2]. cbn in *. subst.
    rewrite <- app_assoc. reflexivity.
  - intros Hrest. specialize (Hnil Hrest). subst w2.
    cbn -[lookup] in Hq2. rewrite list_lookup_alter_eq, Hh in Hq2. cbn in Hq2.
    injection Hq2 as <-. cbn in Hlater.
    apply (f_equal length) in Hlater. rewrite !length_app in Hlater.
    destruct later; [reflexivity | cbn in Hlater; lia].
Qed.

(** The world [after_frames] names is the world the loop has reached. *)
Lemma after_frames_loop
    (env : Env) (frames : list StreamItem) (guildId : string) (queue : nat) (w : World) :
  Map_get (audioQueues w) guildId = Some queue ->
  new_OpusScript_outcome env (trace w) = Normal tt ->
  for_await_items frames (handleChunk env queue (length (decoders w)))
    (set_decoders (fun ds => ds ++ [true])
       (set_trace (fun t => t ++ [EvNewOpusScript 48000 2]) w))
  = (Normal tt, after_frames env frames guildId w).
Proof.
  intros Hq Hnew. unfold after_frames, handleAudioStream, audioQueues_get.
  rewrite bind_unfold. cbn -[lookup]. rewrite Hq.
  unfold M.try_catch, new_OpusScript.
  rewrite ?bind_unfold. unfold M.call. rewrite Hnew. cbn -[lookup for_await].
  unfold for_await. cbn [stream_items stream_error]. rewrite ?bind_unfold.
  match goal with |- for_await_items _ _ ?w0 = _ =>
    destruct (for_await_items_normal env queue (length (decoders w)) frames w0)
      as (wp & E & _) end.
  rewrite E. reflexivity.
Qed.

(** C7. In a subscription of a guild that has a session, wherever in the
    stream a frame stands on which the decoder throws, that frame does not
    end the subscription and raises nothing: [handleAudioStream] completes
    normally, nothing is pushed for the frame, and the frame behind it,
    decoded to a non-empty [pcm], is decoded and pushed as the next chunk of
    the session's queue, right behind the chunks the queue held when the
    corrupt frame arrived; what the rest of the stream adds comes behind. *)
Theorem handleAudioStream_skips_corrupt_frame
    (env : Env) (guildId : string) (queue : nat) (q : AudioQueue)
    (before : list StreamItem) (bad good pcm : list byte) (e : Exn)
    (rest : list StreamItem) (err : option Exn) (w : World) :
  Map_get (audioQueues w) guildId = Some queue ->
  heap w !! queue = Some q ->
  new_OpusScript_outcome env (trace w) = Normal tt ->
  decode_outcome env
    (trace (after_frames env before guildId w) ++ [EvNextChunk (IsBuffer bad)])
    (length (decoders w)) bad = Throw e ->
  decode_outcome env
    (trace (after_frames env before guildId w)
     ++ [EvNextChunk (IsBuffer bad); EvDecode (length (decoders w)) bad;
         EvNextChunk (IsBuffer good)])
    (length (decoders w)) good = Normal (Some pcm) ->
  (0 < length pcm)%nat ->
  fst (handleAudioStream env
         (mkAudioReceiveStream (before ++ IsBuffer bad :: IsBuffer good :: rest) err)
         guildId w)
  = Normal tt
  /\ (trace (after_frames env before guildId w)
      ++ [EvNextChunk (IsBuffer bad); EvDecode (length (decoders w)) bad;
          EvNextChunk (IsBuffer good); EvDecode (length (decoders w)) good])
     `prefix_of`
     trace (snd (handleAudioStream env
                   (mkAudioReceiveStream (before ++ IsBuffer bad :: IsBuffer good :: rest) err)
                   guildId w))
  /\ exists held later : list (list byte),
       heap (after_frames env before guildId w) !! queue
       = Some (mkAudioQueue (connection q) held)
       /\ heap (snd (handleAudioStream env
                       (mkAudioReceiveStream
                          (before ++ IsBuffer bad :: IsBuffer good :: rest) err)
                       guildId w)) !! queue
          = Some (mkAudioQueue (connection q) (held ++ [pcm] ++ later))
       /\ (rest = [] -> later = []).
Proof.
  intros Hq Hh Hnew Hbad Hgood Hpcm.
  pose proof (after_frames_loop env before guildId queue w Hq Hnew) as Hbefore.
  set (wp := after_frames env before guildId w) in *.
  assert (Hheld : exists held, heap wp !! queue = Some (mkAudioQueue (connection q) held)).
  { destruct (for_await_items_rest env queue (length (decoders w)) before
                (set_decoders (fun ds => ds ++ [true])
                   (set_trace (fun t => t ++ [EvNewOpusScript 48000 2]) w)))
      as (wp' & E & Hheap & _).
    rewrite Hbefore in E. injection E as <-.
    destruct (Hheap queue q Hh) as (qp & Hqp & Hc & _).
    exists (audioChunks qp). rewrite Hqp. destruct qp; cbn in *; subst; reflexivity. }
  destruct Hheld as [held Hheld].
  destruct (loop_skips_corrupt_frame env queue (length (decoders w))
              (mkAudioQueue (connection q) held) bad good pcm e rest wp
              Hheld Hbad Hgood Hpcm)
    as (w2 & later & E2 & Htrace & Hq2 & Hnil).
  cbn [connection audioChunks] in Hq2.
  assert (Hrun : for_await_items (before ++ IsBuffer bad :: IsBuffer good :: rest)
                   (handleChunk env queue (length (decoders w)))
                   (set_decoders (fun ds => ds ++ [true])
                      (set_trace (fun t => t ++ [EvNewOpusScript 48000 2]) w))
                 = (Normal tt, w2)).
  { unfold for_await_items in *. rewrite for_each_app, Hbefore. exact E2. }
  unfold handleAudioStream, audioQueues_get. rewrite bind_unfold. cbn -[lookup].
  rewrite Hq. unfold M.try_catch, new_OpusScript.
  rewrite ?bind_unfold. unfold M.call. rewrite Hnew. cbn -[lookup for_await].
  unfold for_await. cbn [stream_items stream_error]. rewrite ?bind_unfold.
  rewrite Hrun.
  destruct err as [err |]; cbn -[lookup].
  - split; [reflexivity |]. split; [exact Htrace |].
    exists held, later. split; [exact Hheld |]. split; [exact Hq2 | exact Hnil].
  - unfold decoder_delete. rewrite ?bind_unfold. unfold M.call.
    destruct (decoder_delete_outcome env (trace w2) (length (decoders w)))
      as [[] | e']; cbn -[lookup];
      (split; [reflexivity |]);
      (split; [etransitivity; [exact Htrace | apply prefix_app_r; reflexivity] |]);
      exists held, later; (split; [exact Hheld |]); (split; [exact Hq2 | exact Hnil]).
Qed.

Lemma handleAudioStream_skips_corrupt_frame_witness :
  fst (handleAudioStream env_ok
         (mkAudioReceiveStream ([IsBuffer [x02]] ++ [IsBuffer []; IsBuffer [x01]]) None)
         "g1" recorded)
  = Normal tt
  /\ (trace (after_frames env_ok [IsBuffer [x02]] "g1" recorded)
      ++ [EvNextChunk (IsBuffer []); EvDecode (length (decoders recorded)) [];
          EvNextChunk (IsBuffer [x01]); EvDecode (length (decoders recorded)) [x01]])
     `prefix_of`
     trace (snd (handleAudioStream env_ok
                   (mkAudioReceiveStream
                      ([IsBuffer [x02]] ++ [IsBuffer []; IsBuffer [x01]]) None)
                   "g1" recorded))
  /\ exists held later : list (list byte),
       heap (after_frames env_ok [IsBuffer [x02]] "g1" recorded) !! 0%nat
       = Some (mkAudioQueue 7%nat held)
       /\ heap (snd (handleAudioStream env_ok
                       (mkAudioReceiveStream
                          ([IsBuffer [x02]] ++ [IsBuffer []; IsBuffer [x01]]) None)
                       "g1" recorded)) !! 0%nat
          = Some (mkAudioQueue 7%nat (held ++ [[x01; x01]] ++ later))
       /\ (@nil StreamItem = [] -> later = []).
Proof.
  apply (handleAudioStream_skips_corrupt_frame env_ok "g1" 0%nat
           (mkAudioQueue 7%nat [[x01; x01]; [x02; x03; x02; x03]])
           [IsBuffer [x02]] [] [x01] [x01; x01] (Failure "corrupt frame") [] None
           recorded).
  - reflexivity.
  - reflexivity.
  - reflexivity.
  - reflexivity.
  - reflexivity.
  - simpl. lia.
Defined.

(** ** The session buffer, from the speaking turn to the written file *)

(** C6. Chunks reach a session's queue through [handleAudioStream] and
    leave it through [handleLeaveCommand]. With a decoder that answers every
    frame with a non-empty block, after any number [n] of the frames of a
    speaking turn the queue holds the chunks it held followed by the decoded
    blocks in stream order, and the reduce that computes the total size
    returns the sum of the lengths of the chunks in the queue; and the leave
    that follows the turn hands to [writeFile] the header followed by the
    concatenation of exactly these chunks in that order, nothing dropped,
    moved or merged. *)
Theorem session_buffer_appends_then_drains
    (env : Env) (message : Message) (guildId : string) (queue : nat)
    (q : AudioQueue) (pcm : list byte -> list byte)
    (audioStream : AudioReceiveStream) (w : World) :
  message_guild_id message = Some guildId ->
  guildId <> EmptyString ->
  Map_get (audioQueues w) guildId = Some queue ->
  heap w !! queue = Some q ->
  new_OpusScript_outcome env (trace w) = Normal tt ->
  (forall t d chunk, decode_outcome env t d chunk = Normal (Some (pcm chunk))) ->
  (forall chunk, (0 < length (pcm chunk))%nat) ->
  (forall n : nat,
     exists qn : AudioQueue,
       heap (snd (handleAudioStream env
                    (mkAudioReceiveStream (take n (stream_items audioStream))
                                          (stream_error audioStream))
                    guildId w)) !! queue = Some qn
       /\ audioChunks qn
          = audioChunks q ++ map pcm (stream_buffers (take n (stream_items audioStream)))
       /\ totalSize (audioChunks qn) = Z.of_nat (sum_list_with length (audioChunks qn)))
  /\ (destroy_outcome env (trace (snd (handleAudioStream env audioStream guildId w)))
                      (connection q) = Normal tt ->
      (0 < length (audioChunks q
                   ++ map pcm (stream_buffers (stream_items audioStream))))%nat ->
      36 + Z.of_nat (length (concat (audioChunks q
                       ++ map pcm (stream_buffers (stream_items audioStream)))))
      <= 4294967295 ->
      In (EvWriteFile ("recording_" +:+ guildId +:+ ".wav")
            (wav_header_layout
               (Z.of_nat (length (concat (audioChunks q
                            ++ map pcm (stream_buffers (stream_items audioStream))))))
             ++ concat (audioChunks q
                        ++ map pcm (stream_buffers (stream_items audioStream)))))
         (trace (snd (handleLeaveCommand env message
                        (snd (handleAudioStream env audioStream guildId w)))))).
Proof.
  intros Hg Hne Hq Hh Hnew Hdecode Hpcm. split.
  - intros n.
    pose proof (turn_appends env
                  (mkAudioReceiveStream (take n (stream_items audioStream))
                                        (stream_error audioStream))
                  guildId queue q pcm w Hq Hh Hnew Hdecode Hpcm) as H.
    cbn [stream_items] in H. eexists. split; [exact H |].
    cbn [audioChunks]. split; [reflexivity | apply totalSize_sum].
  - intros Hdestroy Hlen Hbound.
    apply (leave_writes_chunks env message guildId queue
             (mkAudioQueue (connection q)
                (audioChunks q ++ map pcm (stream_buffers (stream_items audioStream))))
             (snd (handleAudioStream env audioStream guildId w))).
    + exact Hg.
    + exact Hne.
    + assert (Hreg : audioQueues (snd (handleAudioStream env audioStream guildId w))
                     = audioQueues w)
        by (apply (steps_handleAudioStream same_registry); first [exact _ | reflexivity]).
      rewrite Hreg. exact Hq.
    + exact (turn_appends env audioStream guildId queue q pcm w Hq Hh Hnew Hdecode Hpcm).
    + exact Hlen.
    + exact Hdestroy.
    + exact Hbound.
Qed.

Lemma session_buffer_appends_then_drains_witness :
  (forall n : nat,
     exists qn : AudioQueue,
       heap (snd (handleAudioStream env_echo
                    (mkAudioReceiveStream (take n (stream_items turn)) (stream_error turn))
                    "g1" joined)) !! 0%nat = Some qn
       /\ audioChunks qn = [] ++ map (cons x00) (stream_buffers (take n (stream_items turn)))
       /\ totalSize (audioChunks qn) = Z.of_nat (sum_list_with length (audioChunks qn)))
  /\ In (EvWriteFile ("recording_" +:+ "g1" +:+ ".wav")
           (wav_header_layout 5 ++ [x00; x01; x00; x02; x03]))
        (trace (snd (handleLeaveCommand env_echo from_lobby
                       (snd (handleAudioStream env_echo turn "g1" joined))))).
Proof.
  destruct (session_buffer_appends_then_drains env_echo from_lobby "g1" 0%nat
              (mkAudioQueue 7%nat []) (cons x00) turn joined) as [Hturn Hleave].
  - reflexivity.
  - discriminate.
  - reflexivity.
  - reflexivity.
  - reflexivity.
  - intros t d chunk. reflexivity.
  - intros chunk. simpl. lia.
  - split; [exact Hturn |].
    apply Hleave; [reflexivity | simpl; lia | simpl; lia].
Defined.
